(** * sump-dump: a shallow embedding of the SUMP logic-analyser client

    The development follows [sump-dump.c] function by function:

    - [Mach]: the fixed-width unsigned arithmetic of C, on [Z] with the
      wrap-around written out;
    - [Wire]: [struct cmd], the four constant commands and the six command
      encoders, asserts included;
    - [Tty]: the process as a state-and-failure monad over a [world] that
      holds the bytes the device is going to send, the log of what went over
      the serial line and the text written to standard output;
    - [Session]: [read_ident], the handshake and the extended-metadata loop;
    - [Double]: the operations on [double] that [write_vcd] uses, read as
      IEEE 754 binary64 through the primitive floats and their
      specification;
    - section [Rendering]: [write_vcd_value], [write_vcd] and the raw and hex
      loop of [capture], reading the sample buffer through a memory that can
      tell a mapped byte from an unmapped one;
    - sections [Capture] and [Cli]: [capture], the derivation of the
      configuration in [main], the argument parsers and [main];
    - [Spec]: what the specification asks of the renderings, to compare with.

    Diagnostics printed on the error stream are not modelled.  The serial line
    is reliable: [write] takes a whole frame, and [read] either delivers the
    bytes asked for or waits for ever. *)

From Stdlib Require Import ZArith List String Ascii Bool Lia.
From Stdlib Require Import DecimalString.
From Stdlib Require Import Uint63 PrimFloat FloatOps SpecFloat FloatAxioms.
Import ListNotations.
Open Scope Z_scope.

(** ** Machine integers *)

Module Mach.

Definition u8 (x : Z) : Z := x mod 2 ^ 8.
Definition u16 (x : Z) : Z := x mod 2 ^ 16.
Definition u32 (x : Z) : Z := x mod 2 ^ 32.

Definition UINT32_MAX : Z := 2 ^ 32 - 1.

(** [~x] on a [uint32_t]. *)
Definition not32 (x : Z) : Z := u32 (Z.lnot x).

(** [1u << k]; the shift is undefined once [k] reaches the width. *)
Definition shl1 (k : Z) : option Z :=
  if k <? 32 then Some (u32 (Z.shiftl 1 k)) else None.

(** [a / b]; division by zero is undefined. *)
Definition udiv (a b : Z) : option Z :=
  if b =? 0 then None else Some (a / b).

End Mach.
Import Mach.

(** ** Command frames *)

Module Wire.

(** [struct cmd]: five bytes of storage, of which [len] are sent. *)
Record cmd : Type := mk_cmd { data : list Z; len : Z }.

Definition frame (c : cmd) : list Z := firstn (Z.to_nat (len c)) (data c).

Definition cmd_reset : cmd := {| data := [0; 0; 0; 0; 0]; len := 1 |}.
Definition cmd_run : cmd := {| data := [1; 0; 0; 0; 0]; len := 1 |}.
Definition cmd_id : cmd := {| data := [2; 0; 0; 0; 0]; len := 1 |}.
Definition cmd_get_meta : cmd := {| data := [4; 0; 0; 0; 0]; len := 1 |}.

(** [c ? x : 0] *)
Definition flag (c : bool) (x : Z) : Z := if c then x else 0.

(** Each encoder returns [None] where its [assert] fails. *)

Definition cmd_divider (div : Z) : option cmd :=
  if Z.shiftr div 24 =? 0 then
    Some {| data := [ 0x80;
                      u8 (Z.land div 0xFF);
                      u8 (Z.land (Z.shiftr div 8) 0xFF);
                      u8 (Z.land (Z.shiftr div 16) 0xFF);
                      0 ];
            len := 5 |}
  else None.

Definition cmd_counts (read_count delay_count : Z) : cmd :=
  {| data := [ 0x81;
               u8 (Z.land read_count 0xFF);
               u8 (Z.land (Z.shiftr read_count 8) 0xFF);
               u8 (Z.land delay_count 0xFF);
               u8 (Z.land (Z.shiftr delay_count 8) 0xFF) ];
     len := 5 |}.

Definition cmd_flags (group_disable : Z)
           (demux filter external inverted rle : bool) : option cmd :=
  if Z.shiftr group_disable 4 =? 0 then
    Some {| data := [ 0x82;
                      u8 (Z.lor (Z.lor (Z.lor (Z.lor
                            (u32 (Z.shiftl group_disable 2))
                            (flag demux 0x01))
                            (flag filter 0x02))
                            (flag external 0x40))
                            (flag inverted 0x80));
                      flag rle 0x01;
                      0;
                      0 ];
            len := 5 |}
  else None.

Definition cmd_trig_mask (stage mask : Z) : option cmd :=
  if stage <=? 3 then
    Some {| data := [ u8 (Z.lor 0xC0 (u32 (Z.shiftl stage 2)));
                      u8 (Z.land mask 0xFF);
                      u8 (Z.land (Z.shiftr mask 8) 0xFF);
                      u8 (Z.land (Z.shiftr mask 16) 0xFF);
                      u8 (Z.land (Z.shiftr mask 24) 0xFF) ];
            len := 5 |}
  else None.

Definition cmd_trig_value (stage vals : Z) : option cmd :=
  if stage <=? 3 then
    Some {| data := [ u8 (Z.lor 0xC1 (u32 (Z.shiftl stage 2)));
                      u8 (Z.land vals 0xFF);
                      u8 (Z.land (Z.shiftr vals 8) 0xFF);
                      u8 (Z.land (Z.shiftr vals 16) 0xFF);
                      u8 (Z.land (Z.shiftr vals 24) 0xFF) ];
            len := 5 |}
  else None.

Definition cmd_trig_cfg (stage delay level channel : Z)
           (serial start : bool) : option cmd :=
  if (stage <=? 3) && (level <=? 3) && (channel <=? 31) then
    Some {| data := [ u8 (Z.lor 0xC2 (u32 (Z.shiftl stage 2)));
                      u8 (Z.land delay 0xFF);
                      u8 (Z.land (Z.shiftr delay 8) 0xFF);
                      u8 (Z.lor (u32 (Z.shiftl (Z.land channel 0xF) 4)) level);
                      u8 (Z.lor (Z.lor (Z.shiftr channel 4) (flag serial 0x4))
                                (flag start 0x8)) ];
            len := 5 |}
  else None.


End Wire.
Import Wire.

(** ** The process: serial line, standard output, ways to stop *)

Module Tty.

(** What crossed the serial line, in order. *)
Inductive event : Type :=
| Tx (frame : list Z)     (* one [write_tty] *)
| Rx (bytes : list Z).    (* one [read_tty] *)

Record world : Type := mk_world {
  tty_in : list Z;        (* bytes the device has yet to deliver *)
  tty_log : list event;   (* traffic so far, oldest first *)
  stdout : string         (* text written to standard output so far *)
}.

Inductive stop : Type :=
| Exited (status : Z)     (* [exit(status)] *)
| Aborted                 (* a failed [assert] *)
| Undefined               (* division by zero, a read outside the mapped
                             memory, a shift by the width or more *)
| Blocked                 (* [read] waits for bytes that never come *)
| Diverged.               (* a loop that never ends *)

Inductive result (A : Type) : Type :=
| Ok (a : A)
| Stop (s : stop).
Arguments Ok {A} a.
Arguments Stop {A} s.

Definition io (A : Type) : Type := world -> result A * world.

Definition ret {A} (a : A) : io A := fun w => (Ok a, w).

Definition bind {A B} (m : io A) (k : A -> io B) : io B :=
  fun w =>
    match m w with
    | (Ok a, w') => k a w'
    | (Stop s, w') => (Stop s, w')
    end.

Definition halt {A} (s : stop) : io A := fun w => (Stop s, w).

Definition EXIT_FAILURE : Z := 1.

Definition exit {A} (status : Z) : io A := halt (Exited status).

(** [assert(e)] for an encoder that has already evaluated it. *)
Definition asserted {A} (o : option A) : io A :=
  match o with
  | Some a => ret a
  | None => halt Aborted
  end.

(** A value whose computation C leaves undefined when [o] is [None]. *)
Definition defined {A} (o : option A) : io A :=
  match o with
  | Some a => ret a
  | None => halt Undefined
  end.

Definition write_tty (c : cmd) : io unit :=
  fun w => (Ok tt, {| tty_in := tty_in w;
                      tty_log := tty_log w ++ [Tx (frame c)];
                      stdout := stdout w |}).

(** [read_tty(fd, buf, bytes)]: the loop over [read] ends once [bytes] bytes
    have arrived. *)
Definition read_tty (bytes : nat) : io (list Z) :=
  fun w =>
    if (bytes <=? List.length (tty_in w))%nat then
      (Ok (firstn bytes (tty_in w)),
       {| tty_in := skipn bytes (tty_in w);
          tty_log := tty_log w ++ [Rx (firstn bytes (tty_in w))];
          stdout := stdout w |})
    else (Stop Blocked, w).

Definition print (s : string) : io unit :=
  fun w => (Ok tt, {| tty_in := tty_in w;
                      tty_log := tty_log w;
                      stdout := (stdout w ++ s)%string |}).

(** A fresh process talking to a device that will send [input]. *)
Definition boot (input : list Z) : world :=
  {| tty_in := input; tty_log := []; stdout := EmptyString |}.

End Tty.
Import Tty.

Declare Scope io_scope.
Delimit Scope io_scope with io.
Notation "x <- m ;; k" := (bind m (fun x => k))
  (at level 61, m at next level, right associativity) : io_scope.
Notation "m ;;; k" := (bind m (fun _ => k))
  (at level 61, right associativity) : io_scope.
Open Scope io_scope.

(** [for(unsigned i = 0; i < n; i += 1) body] where the body ignores [i]. *)
Fixpoint times (n : nat) (body : io unit) : io unit :=
  match n with
  | O => ret tt
  | S n' => body ;;; times n' body
  end.

(** ** Configuration *)

Definition MAX_VCD_VALUES : Z := 32.
Definition MAX_VCD_VALUE_BITS : Z := 32.
Definition MAX_VCD_NAME_LEN : Z := 32.

(** [struct vcd_value].  The array [bitmasks] is kept as the list of its
    first [num_bits] entries, so that [num_bits] is its length. *)
Record vcd_value : Type := mk_vcd_value {
  name : string;
  mask : Z;
  bitmasks : list Z
}.

Definition num_bits (vv : vcd_value) : Z :=
  Z.of_nat (List.length (bitmasks vv)).

(** [struct cfg].  The array [vcd.values] is kept as the list of its first
    [vcd.num_values] entries. *)
Record cfg : Type := mk_cfg {
  group_enable : Z;
  trigger_mask : Z;
  trigger_value : Z;
  clk_divisor : Z;
  samples : Z;
  before_trig : Z;
  rle : bool;
  raw : bool;
  ext_meta : bool;
  clk_freq_hz : Z;
  sample_memory : Z;
  num_probes : Z;
  vcd_values : list vcd_value;
  max_groups : Z;
  group_mask : Z;
  num_groups_enabled : Z
}.

Definition vcd_num_values (c : cfg) : Z :=
  Z.of_nat (List.length (vcd_values c)).

Definition set_group_enable (c : cfg) (v : Z) : cfg :=
  mk_cfg v (trigger_mask c) (trigger_value c) (clk_divisor c) (samples c)
         (before_trig c) (rle c) (raw c) (ext_meta c) (clk_freq_hz c)
         (sample_memory c) (num_probes c) (vcd_values c) (max_groups c)
         (group_mask c) (num_groups_enabled c).
Definition set_trigger (c : cfg) (m v : Z) : cfg :=
  mk_cfg (group_enable c) m v (clk_divisor c) (samples c)
         (before_trig c) (rle c) (raw c) (ext_meta c) (clk_freq_hz c)
         (sample_memory c) (num_probes c) (vcd_values c) (max_groups c)
         (group_mask c) (num_groups_enabled c).
Definition set_clk_divisor (c : cfg) (v : Z) : cfg :=
  mk_cfg (group_enable c) (trigger_mask c) (trigger_value c) v (samples c)
         (before_trig c) (rle c) (raw c) (ext_meta c) (clk_freq_hz c)
         (sample_memory c) (num_probes c) (vcd_values c) (max_groups c)
         (group_mask c) (num_groups_enabled c).
Definition set_samples (c : cfg) (v : Z) : cfg :=
  mk_cfg (group_enable c) (trigger_mask c) (trigger_value c) (clk_divisor c) v
         (before_trig c) (rle c) (raw c) (ext_meta c) (clk_freq_hz c)
         (sample_memory c) (num_probes c) (vcd_values c) (max_groups c)
         (group_mask c) (num_groups_enabled c).
Definition set_before_trig (c : cfg) (v : Z) : cfg :=
  mk_cfg (group_enable c) (trigger_mask c) (trigger_value c) (clk_divisor c)
         (samples c) v (rle c) (raw c) (ext_meta c) (clk_freq_hz c)
         (sample_memory c) (num_probes c) (vcd_values c) (max_groups c)
         (group_mask c) (num_groups_enabled c).
Definition set_rle (c : cfg) (v : bool) : cfg :=
  mk_cfg (group_enable c) (trigger_mask c) (trigger_value c) (clk_divisor c)
         (samples c) (before_trig c) v (raw c) (ext_meta c) (clk_freq_hz c)
         (sample_memory c) (num_probes c) (vcd_values c) (max_groups c)
         (group_mask c) (num_groups_enabled c).
Definition set_raw (c : cfg) (v : bool) : cfg :=
  mk_cfg (group_enable c) (trigger_mask c) (trigger_value c) (clk_divisor c)
         (samples c) (before_trig c) (rle c) v (ext_meta c) (clk_freq_hz c)
         (sample_memory c) (num_probes c) (vcd_values c) (max_groups c)
         (group_mask c) (num_groups_enabled c).
Definition set_ext_meta (c : cfg) (v : bool) : cfg :=
  mk_cfg (group_enable c) (trigger_mask c) (trigger_value c) (clk_divisor c)
         (samples c) (before_trig c) (rle c) (raw c) v (clk_freq_hz c)
         (sample_memory c) (num_probes c) (vcd_values c) (max_groups c)
         (group_mask c) (num_groups_enabled c).
Definition set_clk_freq_hz (c : cfg) (v : Z) : cfg :=
  mk_cfg (group_enable c) (trigger_mask c) (trigger_value c) (clk_divisor c)
         (samples c) (before_trig c) (rle c) (raw c) (ext_meta c) v
         (sample_memory c) (num_probes c) (vcd_values c) (max_groups c)
         (group_mask c) (num_groups_enabled c).
Definition set_sample_memory (c : cfg) (v : Z) : cfg :=
  mk_cfg (group_enable c) (trigger_mask c) (trigger_value c) (clk_divisor c)
         (samples c) (before_trig c) (rle c) (raw c) (ext_meta c)
         (clk_freq_hz c) v (num_probes c) (vcd_values c) (max_groups c)
         (group_mask c) (num_groups_enabled c).
Definition set_num_probes (c : cfg) (v : Z) : cfg :=
  mk_cfg (group_enable c) (trigger_mask c) (trigger_value c) (clk_divisor c)
         (samples c) (before_trig c) (rle c) (raw c) (ext_meta c)
         (clk_freq_hz c) (sample_memory c) v (vcd_values c) (max_groups c)
         (group_mask c) (num_groups_enabled c).
Definition set_vcd_values (c : cfg) (v : list vcd_value) : cfg :=
  mk_cfg (group_enable c) (trigger_mask c) (trigger_value c) (clk_divisor c)
         (samples c) (before_trig c) (rle c) (raw c) (ext_meta c)
         (clk_freq_hz c) (sample_memory c) (num_probes c) v (max_groups c)
         (group_mask c) (num_groups_enabled c).
Definition set_groups (c : cfg) (mg gm : Z) : cfg :=
  mk_cfg (group_enable c) (trigger_mask c) (trigger_value c) (clk_divisor c)
         (samples c) (before_trig c) (rle c) (raw c) (ext_meta c)
         (clk_freq_hz c) (sample_memory c) (num_probes c) (vcd_values c) mg
         gm (num_groups_enabled c).
Definition set_num_groups_enabled (c : cfg) (v : Z) : cfg :=
  mk_cfg (group_enable c) (trigger_mask c) (trigger_value c) (clk_divisor c)
         (samples c) (before_trig c) (rle c) (raw c) (ext_meta c)
         (clk_freq_hz c) (sample_memory c) (num_probes c) (vcd_values c)
         (max_groups c) (group_mask c) v.

(** The initialiser of [cfg] in [main]; members it does not name are zero. *)
Definition default_cfg : cfg :=
  {| group_enable := 0;
     trigger_mask := 0; trigger_value := 0;
     clk_divisor := 1;
     samples := 0;
     before_trig := 4;
     rle := false; raw := false;
     ext_meta := false;
     clk_freq_hz := 100000000;
     sample_memory := 2 ^ 16;
     num_probes := 32;
     vcd_values := [];
     max_groups := 0; group_mask := 0;
     num_groups_enabled := 0 |}.

(** ** Device session: [read_ident] *)

Module Session.

(** The four ASCII codes of ["1ALS"]. *)
Definition ident_1ALS : list Z := [49; 65; 76; 83].

(** [memcmp(a, b, n) == 0] on two blocks of the same size. *)
Definition memcmp_eq (a b : list Z) : bool :=
  if list_eq_dec Z.eq_dec a b then true else false.

(** A loop that reads at least one byte per round cannot go round more
    often than there are bytes to come: that many rounds, and one to find
    the line silent, are always enough. *)
Definition rounds {A} (loop : nat -> io A) : io A :=
  fun w => loop (S (List.length (tty_in w))) w.

(** Reading one byte into a [uint8_t]. *)
Definition read_byte : io Z :=
  b <- read_tty 1 ;; ret (nth 0 b 0).

(** [do { read_tty(fd, &val[i], 1); i += 1; }
     while(val[i - 1] != '\0' && i != sizeof(val));]
    Returns [val[i - 1]]. *)
Fixpoint meta_string (fuel : nat) (i : Z) : io Z :=
  match fuel with
  | O => halt Blocked
  | S fuel' =>
      b <- read_byte ;;
      let i := i + 1 in
      if negb (b =? 0) && negb (i =? 256) then meta_string fuel' i
      else ret b
  end.

(** [do { read_tty(fd, &val[sizeof(val) - 1], 1); }
     while(val[sizeof(val) - 1] != '\0');] *)
Fixpoint meta_drain (fuel : nat) : io unit :=
  match fuel with
  | O => halt Blocked
  | S fuel' =>
      b <- read_byte ;;
      if negb (b =? 0) then meta_drain fuel' else ret tt
  end.

(** [(uint32_t)valb[3] | (valb[2] << 8) | (valb[1] << 16) | (valb[2] << 24)],
    the promoted operands brought back to 32 bits. *)
Definition meta_u32 (valb : list Z) : Z :=
  u32 (Z.lor (Z.lor (Z.lor (nth 3 valb 0)
                           (Z.shiftl (nth 2 valb 0) 8))
                    (Z.shiftl (nth 1 valb 0) 16))
             (Z.shiftl (nth 2 valb 0) 24)).

(** [switch(meta & 0x1f)] of the 32-bit case. *)
Definition meta_fill (c : cfg) (meta val : Z) : cfg :=
  match Z.land meta 0x1f with
  | 0 => set_num_probes c val
  | 1 => set_sample_memory c val
  | 3 => set_clk_freq_hz c val
  | _ => c
  end.

(** The [while(1)] loop over the metadata entries. *)
Fixpoint meta_loop (fuel : nat) (c : cfg) : io cfg :=
  match fuel with
  | O => halt Blocked
  | S fuel' =>
      meta <- read_byte ;;
      if meta =? 0 then ret c
      else
        match Z.shiftr meta 5 with
        | 0 =>
            last <- rounds (fun n => meta_string n 0) ;;
            (if negb (last =? 0) then rounds meta_drain else ret tt) ;;;
            meta_loop fuel' c
        | 1 =>
            valb <- read_tty 4 ;;
            meta_loop fuel' (meta_fill c meta (meta_u32 valb))
        | 2 =>
            read_byte ;;;
            meta_loop fuel' c
        | _ => ret c
        end
  end.

(** [read_ident]; the configuration it updates through its pointer is
    returned. *)
Definition read_ident (c : cfg) : io cfg :=
  times 5 (write_tty cmd_reset) ;;;
  write_tty cmd_id ;;;
  ident <- read_tty 4 ;;
  if negb (memcmp_eq ident ident_1ALS) then exit EXIT_FAILURE
  else if negb (ext_meta c) then ret c
  else
    write_tty cmd_get_meta ;;;
    rounds (fun n => meta_loop n c).

(** What the specification asks of the 32-bit entry: the four payload bytes
    read most significant first. *)
Definition spec_be32 (valb : list Z) : Z :=
  Z.lor (Z.lor (Z.lor (nth 3 valb 0)
                      (Z.shiftl (nth 2 valb 0) 8))
               (Z.shiftl (nth 1 valb 0) 16))
        (Z.shiftl (nth 0 valb 0) 24).

End Session.
Import Session.

(** ** The arithmetic of [double]

    [write_vcd] computes the time scale and the time stamps in [double].  The
    functions below are written over the operations they use, and the
    instance [binary64] reads these as IEEE 754 binary64, what the compiled
    program computes, through the primitive floats. *)

Class Double (R : Type) : Type := {
  of_unsigned : Z -> R;           (* [(double)x] for an unsigned [x] *)
  dmul : R -> R -> R;
  ddiv : R -> R -> R;
  dltb : R -> R -> bool;
  to_unsigned : R -> option Z     (* [(unsigned int)x]; undefined when the
                                     truncated value does not fit *)
}.

(** Truncation of a binary64 value toward zero. *)
Definition float_to_unsigned (x : float) : option Z :=
  match Prim2SF x with
  | S754_zero _ => Some 0
  | S754_finite s m e =>
      let t := if 0 <=? e then Z.pos m * 2 ^ e else Z.pos m / 2 ^ (- e) in
      if s then (if t =? 0 then Some 0 else None)
      else if t <=? UINT32_MAX then Some t else None
  | _ => None
  end.

#[export] Instance binary64 : Double float := {
  of_unsigned z := PrimFloat.of_uint63 (Uint63.of_Z z);
  dmul := PrimFloat.mul;
  ddiv := PrimFloat.div;
  dltb := PrimFloat.ltb;
  to_unsigned := float_to_unsigned
}.

(** A mantissa of exactly 53 digits: that of a normal number. *)
Definition normal (m : positive) : Prop := 2 ^ 52 <= Z.pos m < 2 ^ 53.

(** ** Text *)

Module Text.

Definition nl : string := String (ascii_of_nat 10) EmptyString.

(** [%c] *)
Definition fmt_c (n : Z) : string :=
  String (ascii_of_N (Z.to_N (u8 n))) EmptyString.

(** [%u] *)
Definition fmt_u (n : Z) : string :=
  NilZero.string_of_uint (N.to_uint (Z.to_N n)).

Definition hex_digit (d : Z) : string :=
  fmt_c (if d <? 10 then 48 + d else 55 + d).

(** [%02X] of a [uint8_t]. *)
Definition fmt_02X (b : Z) : string :=
  (hex_digit (b / 16) ++ hex_digit (b mod 16))%string.

(** The bytes handed to [fwrite], as they land on standard output. *)
Definition raw_bytes (bs : list Z) : string :=
  fold_right (fun b s => (fmt_c b ++ s)%string) EmptyString bs.

End Text.
Import Text.

(** ** Memory holding the sample buffer

    Addresses are counted from the start of the buffer.  A cell is either
    mapped, and holds a byte, or not; reading an unmapped cell is undefined. *)

Definition memory : Type := Z -> option Z.

(** The block [malloc] returns, once [read_tty] has filled it: nothing outside
    it belongs to the program. *)
Definition block (bytes : list Z) : memory :=
  fun a => if a <? 0 then None else nth_error bytes (Z.to_nat a).

(** The same block with readable bytes [below] lying just under it, as an
    allocator that keeps its bookkeeping there leaves them. *)
Definition block_above (below bytes : list Z) : memory :=
  fun a => block (below ++ bytes) (a + Z.of_nat (List.length below)).

Definition load (m : memory) (a : Z) : io Z := defined (m a).

(** ** Rendering *)

Section Rendering.

Context {R : Type} `{Double R}.

(** The text [ctime] returns for the moment of the call. *)
Variable now : string.

Definition no_value : vcd_value :=
  {| name := EmptyString; mask := 0; bitmasks := [] |}.

(** [&cfg->vcd.values[vali]] *)
Definition value_at (c : cfg) (vali : Z) : vcd_value :=
  nth (Z.to_nat vali) (vcd_values c) no_value.

(** [(sample & m)? 1 : 0] printed with [%u]. *)
Definition bit_of (sample m : Z) : string :=
  fmt_u (if Z.land sample m =? 0 then 0 else 1).

Definition write_vcd_value (c : cfg) (vali sample : Z) : io unit :=
  let vv := value_at c vali in
  if num_bits vv =? 1 then
    print (bit_of sample (mask vv) ++ fmt_c (33 + vali) ++ nl)
  else
    print "b" ;;;
    fold_left (fun acc bm => acc ;;; print (bit_of sample bm))
              (bitmasks vv) (ret tt) ;;;
    print (" " ++ fmt_c (33 + vali) ++ nl).

Definition units : list string := ["s"; "ms"; "us"; "ns"; "ps"; "fs"]%string.
Definition tens : list Z := [1; 10; 100].

(** [while((divisor * time_scale) / freq < 100.0)
      { time_scale *= 10.0; ntens += 1; }] *)
Fixpoint scale_loop (fuel : nat) (divisor freq time_scale : R) (ntens : Z)
  : option (R * Z) :=
  match fuel with
  | O => None
  | S fuel' =>
      if dltb (ddiv (dmul divisor time_scale) freq) (of_unsigned 100) then
        scale_loop fuel' divisor freq
                   (dmul time_scale (of_unsigned 10)) (u32 (ntens + 1))
      else Some (time_scale, ntens)
  end.

(** Rounds granted to [scale_loop]: a binary64 [time_scale] is infinite long
    before, and then the test fails. *)
Definition scale_fuel : nat := 400.

(** The head of [write_vcd]: scaled period, multiplier and unit. *)
Definition infer_timescale (c : cfg) : io (R * Z * string) :=
  let divisor := of_unsigned (clk_divisor c) in
  let freq := of_unsigned (clk_freq_hz c) in
  match scale_loop scale_fuel divisor freq (of_unsigned 1) 0 with
  | None => halt Diverged
  | Some (time_scale, ntens) =>
      let period := ddiv (dmul divisor time_scale) freq in
      let unit := ntens / 3 in
      let unit_scale := nth (Z.to_nat (ntens mod 3)) tens 0 in
      if unit <? 6 then
        ret (period, unit_scale, nth (Z.to_nat unit) units EmptyString)
      else halt Aborted
  end.

(** [for(vali = 0; vali < num_values; vali += 1)] of the header. *)
Fixpoint vcd_vars (todo : nat) (c : cfg) (vali : Z) : io unit :=
  match todo with
  | O => ret tt
  | S todo' =>
      let vv := value_at c vali in
      print ("$var wire " ++ fmt_u (num_bits vv) ++ " " ++ fmt_c (33 + vali)
               ++ " " ++ name vv ++ " $end" ++ nl) ;;;
      vcd_vars todo' c (vali + 1)
  end.

Fixpoint vcd_dumpvars (todo : nat) (c : cfg) (vali : Z) : io unit :=
  match todo with
  | O => ret tt
  | S todo' =>
      write_vcd_value c vali 0 ;;;
      vcd_dumpvars todo' c (vali + 1)
  end.

(** [for(j = 0; j < num_groups_enabled; j += 1)
      { cur <<= 8; cur |= *(ptr - (num_groups_enabled - j)); }] *)
Fixpoint vcd_word (todo : nat) (m : memory) (c : cfg) (ptr j cur : Z)
  : io Z :=
  match todo with
  | O => ret cur
  | S todo' =>
      b <- load m (ptr - u32 (num_groups_enabled c - j)) ;;
      vcd_word todo' m c ptr (j + 1) (Z.lor (u32 (Z.shiftl cur 8)) b)
  end.

(** The loop over the values for sample [i]. *)
Fixpoint vcd_changes (todo : nat) (c : cfg) (period : R)
         (num_samples i cur changed vali : Z) (written_time : bool)
  : io unit :=
  match todo with
  | O => ret tt
  | S todo' =>
      let vv := value_at c vali in
      if (i =? u32 (num_samples - 1))
         || negb (Z.land changed (mask vv) =? 0) then
        (if negb written_time then
           current_time <-
             defined (to_unsigned (dmul (of_unsigned i) period)) ;;
           print ("#" ++ fmt_u current_time ++ nl)
         else ret tt) ;;;
        write_vcd_value c vali cur ;;;
        vcd_changes todo' c period num_samples i cur changed (vali + 1) true
      else
        vcd_changes todo' c period num_samples i cur changed (vali + 1)
                    written_time
  end.

(** [for(i = 0; i < num_samples; i += 1)] of [write_vcd]. *)
Fixpoint vcd_samples (todo : nat) (m : memory) (c : cfg) (period : R)
         (num_samples i prev ptr : Z) : io unit :=
  match todo with
  | O => ret tt
  | S todo' =>
      cur <- vcd_word (Z.to_nat (num_groups_enabled c)) m c ptr 0 0 ;;
      let ptr := ptr - num_groups_enabled c in
      let changed := Z.lxor prev cur in
      vcd_changes (Z.to_nat (vcd_num_values c)) c period num_samples i cur
                  changed 0 false ;;;
      vcd_samples todo' m c period num_samples (i + 1) cur ptr
  end.

Definition write_vcd (c : cfg) (m : memory) (sample_buf num_samples : Z)
  : io unit :=
  ts <- infer_timescale c ;;
  let '(period, unit_scale, unit) := ts in
  print ("$date" ++ nl ++ "  " ++ now ++ "$end" ++ nl) ;;;
  print ("$version" ++ nl ++ "   Sump dumper" ++ nl ++ "$end" ++ nl) ;;;
  print ("$timescale " ++ fmt_u unit_scale ++ unit ++ " $end" ++ nl) ;;;
  vcd_vars (Z.to_nat (vcd_num_values c)) c 0 ;;;
  print ("$enddefinitions $end" ++ nl) ;;;
  print ("$dumpvars" ++ nl) ;;;
  vcd_dumpvars (Z.to_nat (vcd_num_values c)) c 0 ;;;
  print ("$end" ++ nl) ;;;
  let ptr :=
    sample_buf + u32 (u32 (num_samples * num_groups_enabled c) - 1) in
  vcd_samples (Z.to_nat num_samples) m c period num_samples 0 0 ptr.

(** [fwrite(p, 1, n, stdout)]: the [n] bytes from [p] on. *)
Fixpoint fwrite (todo : nat) (m : memory) (p : Z) : io unit :=
  match todo with
  | O => ret tt
  | S todo' =>
      b <- load m p ;;
      print (fmt_c b) ;;;
      fwrite todo' m (p + 1)
  end.

(** [for(j = 0; j < num_groups_enabled; j += 1)
      printf("%02X", *(ptr - (num_groups_enabled - j)));] *)
Fixpoint hex_sample (todo : nat) (m : memory) (c : cfg) (ptr j : Z)
  : io unit :=
  match todo with
  | O => ret tt
  | S todo' =>
      b <- load m (ptr - u32 (num_groups_enabled c - j)) ;;
      print (fmt_02X b) ;;;
      hex_sample todo' m c ptr (j + 1)
  end.

(** [for(i = 0; i < capture_samples; i += 1)] at the end of [capture]. *)
Fixpoint dump_samples (todo : nat) (m : memory) (c : cfg) (ptr : Z)
  : io unit :=
  match todo with
  | O => ret tt
  | S todo' =>
      ptr <- (if raw c then
                fwrite (Z.to_nat (num_groups_enabled c)) m
                       (ptr - num_groups_enabled c) ;;;
                ret (ptr - num_groups_enabled c)
              else
                hex_sample (Z.to_nat (num_groups_enabled c)) m c ptr 0 ;;;
                print nl ;;;
                ret ptr) ;;
      dump_samples todo' m c (ptr - num_groups_enabled c)
  end.

End Rendering.

(** ** [capture] *)

Section Capture.

Context {R : Type} `{Double R}.
Variable now : string.

(** [cmd_...(&cmd, ...); write_tty(fd, &cmd);] *)
Definition send (c : option cmd) : io unit :=
  cmd <- asserted c ;; write_tty cmd.

(** [for(unsigned i = 1; i < 4; i += 1)]: the stages after the first. *)
Fixpoint later_stages (todo : nat) (i : Z) : io unit :=
  match todo with
  | O => ret tt
  | S todo' =>
      send (cmd_trig_mask i 0) ;;;
      send (cmd_trig_value i 0) ;;;
      send (cmd_trig_cfg i 0 3 0 false false) ;;;
      later_stages todo' (i + 1)
  end.

(** The sample buffer starts at address 0 of its memory; [malloc] is taken
    to succeed. *)
Definition capture (c : cfg) : io unit :=
  let group_dis := Z.land (not32 (group_enable c)) (group_mask c) in
  times 5 (write_tty cmd_reset) ;;;
  send (cmd_divider (u32 (clk_divisor c - 1))) ;;;
  (if trigger_mask c =? 0 then
     send (cmd_trig_mask 0 0) ;;;
     send (cmd_trig_value 0 0) ;;;
     send (cmd_trig_cfg 0 0 0 0 false true)
   else
     send (cmd_trig_mask 0 (trigger_mask c)) ;;;
     send (cmd_trig_value 0 (trigger_value c)) ;;;
     send (cmd_trig_cfg 0 0 0 0 false true) ;;;
     later_stages 3 1) ;;;
  max_samples <- defined (udiv (sample_memory c) (num_groups_enabled c)) ;;
  let capture_samples :=
    if samples c >? max_samples then max_samples else samples c in
  let before_samples :=
    if before_trig c >? capture_samples then capture_samples
    else before_trig c in
  write_tty (cmd_counts (u16 (capture_samples / 4))
                        (u16 (u32 (capture_samples - before_samples) / 4))) ;;;
  send (cmd_flags group_dis false false false false (rle c)) ;;;
  write_tty cmd_run ;;;
  let size := u32 (capture_samples * num_groups_enabled c) in
  bytes <- read_tty (Z.to_nat size) ;;
  let m := block bytes in
  let buf := 0 in
  if negb (vcd_num_values c =? 0) then
    write_vcd now c m buf capture_samples
  else
    let ptr := buf + u32 (size - 1) in
    dump_samples (Z.to_nat capture_samples) m c ptr.

End Capture.

(** ** Deriving the configuration: the middle of [main] *)

(** [for(unsigned n = ...; n; n >>= 1) num_groups_enabled += 1;]
    A 32-bit [n] is zero after 32 shifts, which is the [fuel] given. *)
Fixpoint count_groups (fuel : nat) (n acc : Z) : Z :=
  match fuel with
  | O => acc
  | S fuel' =>
      if n =? 0 then acc
      else count_groups fuel' (Z.shiftr n 1) (u32 (acc + 1))
  end.

(** From [cfg.max_groups = ...] to the test of [cfg.clk_freq_hz]. *)
Definition derive (c : cfg) (after_trig : Z) : io cfg :=
  let mg := u32 (num_probes c + 7) / 8 in
  one <- defined (shl1 mg) ;;
  let c := set_groups c mg (u32 (one - 1)) in
  let c := if group_enable c =? 0 then set_group_enable c (group_mask c)
           else c in
  let c := set_num_groups_enabled c
             (count_groups 32 (Z.land (group_enable c) (group_mask c)) 0) in
  c <- (if samples c =? 0 then
          q <- defined (udiv (sample_memory c) (num_groups_enabled c)) ;;
          ret (set_samples c q)
        else ret c) ;;
  let c := if negb (after_trig =? UINT32_MAX) then
             set_before_trig c
               (u32 (samples c - (if after_trig >? samples c then samples c
                                  else after_trig)))
           else c in
  if clk_freq_hz c =? 0 then exit EXIT_FAILURE else ret c.

(** What the specification asks of [num_groups_enabled]: the number of set
    bits among the low 32. *)
Definition spec_popcount (n : Z) : Z :=
  fold_right (fun i acc => acc + (if Z.testbit n (Z.of_nat i) then 1 else 0))
             0 (seq 0 32).

(** ** Command line: the parsers and [main] *)

Section Cli.

Context {R : Type} `{Double R}.
Variable now : string.

(** [strtoull(s, &end, 0)] of the C library: the value converted and the
    number of characters consumed, so that [end] is [s] without them. *)
Variable strtoull : string -> Z * nat.

(** [struct args], without its [err] member, which is always [argerr]. *)
Record args : Type := mk_args { argv : list string; argc : Z; pos : Z }.

(** [argerr] prints the usage and exits. *)
Definition argerr {A} : io A := exit EXIT_FAILURE.

Definition args_pop (a : args) : option string * args :=
  if pos a =? argc a then (None, a)
  else (Some (nth (Z.to_nat (pos a)) (argv a) EmptyString),
        {| argv := argv a; argc := argc a; pos := pos a + 1 |}).

(** [s + n] on a C string. *)
Fixpoint advance (n : nat) (s : string) : string :=
  match n, s with
  | S n', String _ s' => advance n' s'
  | _, _ => s
  end.

(** [s[0]], with [None] for the terminating NUL. *)
Definition peek (s : string) : option ascii :=
  match s with
  | String ch _ => Some ch
  | EmptyString => None
  end.

Definition at_end (s : string) : bool :=
  match s with EmptyString => true | _ => false end.

Definition starts_with (ch : ascii) (s : string) : bool :=
  match s with
  | String ch' _ => Ascii.eqb ch ch'
  | EmptyString => false
  end.

Definition tolower (ch : ascii) : ascii :=
  let n := nat_of_ascii ch in
  if ((65 <=? n) && (n <=? 90))%nat then ascii_of_nat (n + 32) else ch.

(** [strcasecmp(a, b) == 0] *)
Fixpoint strcasecmp_eq (a b : string) : bool :=
  match a, b with
  | EmptyString, EmptyString => true
  | String x a', String y b' =>
      Ascii.eqb (tolower x) (tolower y) && strcasecmp_eq a' b'
  | _, _ => false
  end.

Definition args_number (a : args) : io (Z * args) :=
  let (arg, a) := args_pop a in
  match arg with
  | None => argerr
  | Some arg =>
      let (n, used) := strtoull arg in
      let end_ := advance used arg in
      if (used =? 0)%nat || negb (at_end end_) || (n >? UINT32_MAX) then
        argerr
      else ret (u32 n, a)
  end.

Definition args_si_unit (a : args) (unit : string) : io (Z * args) :=
  let (arg, a) := args_pop a in
  match arg with
  | None => argerr
  | Some arg =>
      let (n, used) := strtoull arg in
      let end_ := advance used arg in
      if (used =? 0)%nat || (n >? UINT32_MAX) then argerr
      else
        scaled <-
          match peek end_ with
          | Some "M"%char | Some "m"%char =>
              ret (n * 1000000, advance 1 end_)
          | Some "K"%char | Some "k"%char =>
              ret (n * 1000, advance 1 end_)
          | None => ret (n, end_)
          | Some _ => argerr
          end ;;
        let (n, end_) := scaled : Z * string in
        if n >? UINT32_MAX then argerr
        else if negb (at_end end_) && negb (strcasecmp_eq end_ unit) then
          argerr
        else ret (u32 n, a)
  end.

Definition args_numeqnum (a : args) : io (Z * Z * args) :=
  let (arg, a) := args_pop a in
  match arg with
  | None => argerr
  | Some arg =>
      let (n0, used) := strtoull arg in
      let end_ := advance used arg in
      if (used =? 0)%nat || negb (starts_with "="%char end_)
         || (n0 >? UINT32_MAX) then argerr
      else
        let arg := advance 1 end_ in
        let (n1, used) := strtoull arg in
        let end_ := advance used arg in
        if (used =? 0)%nat || negb (at_end end_) || (n1 >? UINT32_MAX) then
          argerr
        else ret (u32 n0, u32 n1, a)
  end.

(** [while(p[0] != '=') { if(p[0] == '\0') err; p += 1; }]: the length of
    the name, or [None] when the string ends first. *)
Fixpoint name_length (p : string) : option nat :=
  match p with
  | EmptyString => None
  | String ch p' =>
      if Ascii.eqb ch "="%char then Some O
      else option_map S (name_length p')
  end.

(** [strncpy(vv->name, arg, len)] into a zeroed buffer. *)
Fixpoint take (n : nat) (s : string) : string :=
  match n, s with
  | S n', String ch s' => String ch (take n' s')
  | _, _ => EmptyString
  end.

(** [for(unsigned i = 0; i < 32; i += 1) { if(tm & n) ...; tm >>= 1; }] *)
Fixpoint split_bits (todo : nat) (tm n : Z) (bits : list Z)
  : io (list Z) :=
  match todo with
  | O => ret bits
  | S todo' =>
      bits <- (if negb (Z.land tm n =? 0) then
                 if Z.of_nat (List.length bits) >=? MAX_VCD_VALUE_BITS then
                   argerr
                 else ret (bits ++ [tm])
               else ret bits) ;;
      split_bits todo' (Z.shiftr tm 1) n bits
  end.

(** The [do ... while(p[0] == ',')] loop over the masks.  Each round either
    fails or moves [p] on, so the length of the text bounds the rounds. *)
Fixpoint vcd_masks (fuel : nat) (p : string) (vv : vcd_value)
  : io vcd_value :=
  match fuel with
  | O => halt Diverged
  | S fuel' =>
      let (n, used) := strtoull p in
      let end_ := advance used p in
      if (used =? 0)%nat || (n >? UINT32_MAX) then argerr
      else
        bits <- split_bits 32 0x80000000 n (bitmasks vv) ;;
        let vv := {| name := name vv;
                     mask := u32 (Z.lor (mask vv) n);
                     bitmasks := bits |} in
        if starts_with ","%char end_ then vcd_masks fuel' end_ vv
        else ret vv
  end.

(** [vv] is the entry of [cfg.vcd.values] being filled; its [bitmasks] and
    [num_bits] are as the caller left them. *)
Definition args_vcd_value (a : args) (vv : vcd_value)
  : io (vcd_value * args) :=
  let (arg, a) := args_pop a in
  match arg with
  | None => argerr
  | Some arg =>
      match name_length arg with
      | None => argerr
      | Some len =>
          if (len =? 0)%nat || (Z.of_nat len >? MAX_VCD_NAME_LEN) then argerr
          else
            let vv := {| name := take len arg;
                         mask := 0;
                         bitmasks := bitmasks vv |} in
            let p := advance (S len) arg in
            vv <- vcd_masks (S (String.length p)) p vv ;;
            ret (vv, a)
      end
  end.

(** One round of [while(args.pos < args.argc)]. *)
Definition parse_option (a : args) (c : cfg) (after_trig : Z)
  : io (args * cfg * Z) :=
  let (popped, a) := args_pop a in
  let opt := match popped with Some s => s | None => EmptyString end in
  if String.eqb opt "groups" then
    r <- args_number a ;;
    ret (snd r, set_group_enable c (fst r), after_trig)
  else if String.eqb opt "trigger" then
    r <- args_numeqnum a ;;
    ret (snd r, set_trigger c (fst (fst r)) (snd (fst r)), after_trig)
  else if String.eqb opt "divisor" then
    r <- args_number a ;;
    ret (snd r, set_clk_divisor c (fst r), after_trig)
  else if String.eqb opt "samples" then
    r <- args_number a ;;
    ret (snd r, set_samples c (fst r), after_trig)
  else if String.eqb opt "before" then
    r <- args_number a ;;
    ret (snd r, set_before_trig c (fst r), after_trig)
  else if String.eqb opt "after" then
    r <- args_number a ;;
    ret (snd r, c, fst r)
  else if String.eqb opt "rle" then
    ret (a, set_rle c true, after_trig)
  else if String.eqb opt "raw" then
    ret (a, set_raw c true, after_trig)
  else if String.eqb opt "clk_freq" then
    r <- args_si_unit a "hz" ;;
    ret (snd r, set_clk_freq_hz c (fst r), after_trig)
  else if String.eqb opt "sample_memory" then
    r <- args_si_unit a "B" ;;
    ret (snd r, set_sample_memory c (fst r), after_trig)
  else if String.eqb opt "num_probes" then
    r <- args_number a ;;
    ret (snd r, set_num_probes c (fst r), after_trig)
  else if String.eqb opt "extmeta" then
    ret (a, set_ext_meta c false, after_trig)
  else if String.eqb opt "vcd" then
    if vcd_num_values c =? MAX_VCD_VALUES then argerr
    else
      r <- args_vcd_value a no_value ;;
      ret (snd r, set_vcd_values c (vcd_values c ++ [fst r]), after_trig)
  else argerr.

(** [while(args.pos < args.argc)]: every round moves [pos] on, so [argc]
    rounds are enough. *)
Fixpoint parse_options (fuel : nat) (a : args) (c : cfg) (after_trig : Z)
  : io (cfg * Z) :=
  if pos a <? argc a then
    match fuel with
    | O => halt Diverged
    | S fuel' =>
        r <- parse_option a c after_trig ;;
        let '(a, c, after_trig) := r in
        parse_options fuel' a c after_trig
    end
  else ret (c, after_trig).

(** [main].  Opening the tty named by [argv[1]] and setting the line up are
    taken to succeed. *)
Definition main (argv : list string) : io Z :=
  let argc := Z.of_nat (List.length argv) in
  let a := {| argv := argv; argc := argc; pos := 2 |} in
  (if argc <? 2 then argerr else ret tt) ;;;
  r <- parse_options (List.length argv) a default_cfg UINT32_MAX ;;
  let (c, after_trig) := r : cfg * Z in
  c <- read_ident c ;;
  c <- derive c after_trig ;;
  capture now c ;;;
  ret 0.

End Cli.

(** ** A [strtoull] to run command lines with

    [main] is stated for any [strtoull].  The one below covers what the usage
    text shows: an unsigned literal in base 16 ([0x]), 8 (leading [0]) or 10,
    without leading blanks or sign, saturating at [ULLONG_MAX]. *)

Module Strtoull.

Definition digit_value (ch : ascii) : option Z :=
  let n := Z.of_nat (nat_of_ascii ch) in
  if (48 <=? n) && (n <=? 57) then Some (n - 48)
  else if (97 <=? n) && (n <=? 102) then Some (n - 87)
  else if (65 <=? n) && (n <=? 70) then Some (n - 55)
  else None.

(** Digits of base [base] from the front of [s]: value and count. *)
Fixpoint digits (base : Z) (s : string) (acc : Z) (used : nat) : Z * nat :=
  match s with
  | EmptyString => (acc, used)
  | String ch s' =>
      match digit_value ch with
      | Some d =>
          if d <? base then
            digits base s' (Z.min (acc * base + d) (2 ^ 64 - 1)) (S used)
          else (acc, used)
      | None => (acc, used)
      end
  end.

Definition strtoull (s : string) : Z * nat :=
  match s with
  | String "0" (String x s') =>
      if Ascii.eqb x "x" || Ascii.eqb x "X" then
        match digits 16 s' 0 O with
        | (_, O) => (0, 1%nat)
        | (v, n) => (v, S (S n))
        end
      else digits 8 s 0 O
  | _ => digits 10 s 0 O
  end.

End Strtoull.

(** ** What the specification asks of the three renderings *)

Module Spec.

(** The buffer cut into samples of [g] bytes, in memory order. *)
Fixpoint samples_of (n g : nat) (bytes : list Z) : list (list Z) :=
  match n with
  | O => []
  | S n' => firstn g bytes :: samples_of n' g (skipn g bytes)
  end.

(** The device sends the newest sample first: chronological order is the
    memory order reversed. *)
Definition chronological (n g : nat) (bytes : list Z) : list (list Z) :=
  rev (samples_of n g bytes).

Definition hex_line (sample : list Z) : string :=
  (fold_right (fun b s => fmt_02X b ++ s) EmptyString sample ++ nl)%string.

Definition hex_dump (n g : nat) (bytes : list Z) : string :=
  fold_right (fun smp s => hex_line smp ++ s)%string EmptyString
             (chronological n g bytes).

Definition raw_dump (n g : nat) (bytes : list Z) : string :=
  fold_right (fun smp s => raw_bytes smp ++ s)%string EmptyString
             (chronological n g bytes).

(** A sample as one integer, the first group byte most significant. *)
Definition word_of (sample : list Z) : Z :=
  fold_left (fun acc b => Z.lor (u32 (Z.shiftl acc 8)) b) sample 0.

(** Whether a value with mask [vmask] gets a state line at index [i] of the
    chronological [words]. *)
Definition emits (vmask : Z) (words : list Z) (i : nat) : bool :=
  let prev := match i with O => 0 | S j => nth j words 0 end in
  let cur := nth i words 0 in
  (Nat.eqb (S i) (List.length words))
  || negb (Z.land (Z.lxor prev cur) vmask =? 0).

End Spec.

(** ** Predicates on runs *)

(** Every run of [m] adds to the log only events in [E], stops only for a
    reason in [S], and returns only values in [V]. *)
Definition behaves {A} (E : event -> Prop) (S : stop -> Prop) (V : A -> Prop)
           (m : io A) : Prop :=
  forall w,
    (exists more, tty_log (snd (m w)) = tty_log w ++ more /\ Forall E more)
    /\ match fst (m w) with Ok a => V a | Stop s => S s end.

Definition anything {A} : A -> Prop := fun _ => True.

Definition no_get_meta (e : event) : Prop := e <> Tx (frame cmd_get_meta).
Definition any_stop (s : stop) : Prop := True.

Definition only_blocked (s : stop) : Prop := s = Blocked.
Definition only_undefined (s : stop) : Prop := s = Undefined.

(** The parser leaves [ext_meta] clear when it found it clear. *)
Definition meta_off {A B} (r : A * cfg * B) : Prop :=
  ext_meta (snd (fst r)) = false.

(** The state of the line once the handshake has read its four bytes. *)
Definition after_ident (w : world) (ident rest : list Z) : world :=
  {| tty_in := rest;
     tty_log := tty_log w ++ [ Tx (frame cmd_reset); Tx (frame cmd_reset);
                               Tx (frame cmd_reset); Tx (frame cmd_reset);
                               Tx (frame cmd_reset); Tx (frame cmd_id);
                               Rx ident ];
     stdout := stdout w |}.

(** ** Inputs of the worked examples *)

(** What [ctime] is taken to return in the runs below. *)
Definition some_date : string :=
  ("Tue Nov  3 06:41:00 2026" ++ nl)%string.

(** The configuration [main] derives from
    [groups 1 samples 2 vcd d=0x2]. *)
Definition one_bit_cfg : cfg :=
  set_num_groups_enabled
    (set_groups
       (set_samples
          (set_group_enable
             (set_vcd_values default_cfg
                [ {| name := "d"; mask := 2; bitmasks := [2] |} ])
             1)
          2)
       4 15)
    1.

(** The text [write_vcd] prints before the first sample. *)
Definition vcd_header (c : cfg) : string :=
  stdout (snd (write_vcd (R := float) some_date c (block []) 0 0 (boot []))).

(** The configuration of the worked example: divisor 11 at 100 MHz. *)
Definition cfg_11_at_100MHz : cfg := set_clk_divisor default_cfg 11.

(** ** Vocabulary of the further properties *)


(** What the encoders of [sump-dump.c] can produce. *)
Definition is_command (c : cmd) : Prop :=
  c = cmd_reset \/ c = cmd_run \/ c = cmd_id \/ c = cmd_get_meta
  \/ (exists d, cmd_divider d = Some c)
  \/ (exists r d, cmd_counts r d = c)
  \/ (exists g a b x y z, cmd_flags g a b x y z = Some c)
  \/ (exists s m, cmd_trig_mask s m = Some c)
  \/ (exists s v, cmd_trig_value s v = Some c)
  \/ (exists s d l ch a b, cmd_trig_cfg s d l ch a b = Some c).

Definition octet (b : Z) : Prop := 0 <= b < 256.

(** The world after [read_tty] has taken the bytes [bs] one at a time, with
    [rest] still to come. *)
Definition after_bytes (w : world) (bs rest : list Z) : world :=
  {| tty_in := rest;
     tty_log := tty_log w ++ map (fun b => Rx [b]) bs;
     stdout := stdout w |}.



(** The bytes an encoder puts on the line; none if its assertion fails. *)
Definition frame_of (o : option cmd) : list Z :=
  match o with
  | Some c => frame c
  | None => []
  end.

(** The frames [capture] sends for the trigger stages. *)
Definition trigger_frames (c : cfg) : list (list Z) :=
  if trigger_mask c =? 0 then
    map frame_of [ cmd_trig_mask 0 0; cmd_trig_value 0 0;
                   cmd_trig_cfg 0 0 0 0 false true ]
  else
    map frame_of [ cmd_trig_mask 0 (trigger_mask c);
                   cmd_trig_value 0 (trigger_value c);
                   cmd_trig_cfg 0 0 0 0 false true;
                   cmd_trig_mask 1 0; cmd_trig_value 1 0;
                   cmd_trig_cfg 1 0 3 0 false false;
                   cmd_trig_mask 2 0; cmd_trig_value 2 0;
                   cmd_trig_cfg 2 0 3 0 false false;
                   cmd_trig_mask 3 0; cmd_trig_value 3 0;
                   cmd_trig_cfg 3 0 3 0 false false ].

(** Nothing crosses the serial line. *)
Definition no_traffic (e : event) : Prop := False.

(** The world with one more event in its log. *)
Definition logged (w : world) (e : event) : world :=
  {| tty_in := tty_in w; tty_log := tty_log w ++ [e]; stdout := stdout w |}.

(** What [capture] has sent and received when it starts rendering. *)
Definition capture_log (c : cfg) (input : list Z) : list event :=
  let g := num_groups_enabled c in
  let group_dis := Z.land (not32 (group_enable c)) (group_mask c) in
  let n := Z.min (samples c) (sample_memory c / g) in
  let before := Z.min (before_trig c) n in
  map Tx ([ [0]; [0]; [0]; [0]; [0];
            frame_of (cmd_divider (clk_divisor c - 1)) ]
          ++ trigger_frames c
          ++ [ frame (cmd_counts (u16 (n / 4)) (u16 ((n - before) / 4)));
               frame_of (cmd_flags group_dis false false false false (rle c));
               [1] ])
  ++ [ Rx (firstn (Z.to_nat (n * g)) input) ].

(** A configuration whose commands the encoders accept, with a group
    enabled, and a device that delivers the samples. *)
Definition capturable (c : cfg) (w : world) : Prop :=
  1 <= clk_divisor c <= 2 ^ 24
  /\ 0 <= Z.land (not32 (group_enable c)) (group_mask c) < 16
  /\ 1 <= num_groups_enabled c
  /\ 0 <= samples c
  /\ 0 <= sample_memory c < 2 ^ 32
  /\ 0 <= before_trig c
  /\ (Z.to_nat (Z.min (samples c) (sample_memory c / num_groups_enabled c)
                * num_groups_enabled c)
      <= List.length (tty_in w))%nat.

(** The configuration [main] derives from [groups 1 samples 4]. *)
Definition four_samples_cfg : cfg :=
  set_num_groups_enabled
    (set_groups (set_samples (set_group_enable default_cfg 1) 4) 4 15) 1.

(** A computation that leaves the world alone, stops only through [argerr]
    and returns only values in [V]. *)
Definition parses {A} (V : A -> Prop) (m : io A) : Prop :=
  forall w,
    snd (m w) = w
    /\ match fst (m w) with
       | Ok a => V a
       | Stop s => s = Exited EXIT_FAILURE
       end.

(** The parser has taken one more argument. *)
Definition popped (a a' : args) : Prop :=
  argv a' = argv a /\ argc a' = argc a /\ pos a' = pos a + 1
  /\ pos a <> argc a.

(** One round of the loop moves on by one argument or by two. *)
Definition advanced (a : args) (r : args * cfg * Z) : Prop :=
  argv (fst (fst r)) = argv a
  /\ argc (fst (fst r)) = argc a
  /\ pos a < pos (fst (fst r)) <= argc a.

(** The powers of two of the bits of [n] set below position [k], the highest
    first. *)
Fixpoint bits_below (k : nat) (n : Z) : list Z :=
  match k with
  | O => []
  | S k' =>
      (if Z.testbit n (Z.of_nat k') then [2 ^ Z.of_nat k'] else [])
        ++ bits_below k' n
  end.

(** The world with [s] added to standard output. *)
Definition printed (w : world) (s : string) : world :=
  {| tty_in := tty_in w; tty_log := tty_log w;
     stdout := (stdout w ++ s)%string |}.

(** The line of a VCD value for a sample: one digit and the identifier for
    a value of one bit, otherwise [b], one digit per mask in the order the
    masks were given, a blank and the identifier. *)
Definition state_line (vv : vcd_value) (vali sample : Z) : string :=
  if num_bits vv =? 1 then
    (bit_of sample (mask vv) ++ fmt_c (33 + vali) ++ nl)%string
  else
    ("b" ++ String.concat EmptyString (map (bit_of sample) (bitmasks vv))
         ++ " " ++ fmt_c (33 + vali) ++ nl)%string.

(** * Proofs *)

(** ** Command frames *)







(** ** Reasoning about runs *)

Section Behaves.

Variable E : event -> Prop.
Variable S : stop -> Prop.

Lemma logs_nothing (w w' : world) :
  tty_log w' = tty_log w ->
  exists more, tty_log w' = tty_log w ++ more /\ Forall E more.
Proof. intros ->. exists []. now rewrite app_nil_r. Qed.

Lemma behaves_ret {A} (V : A -> Prop) (a : A) :
  V a -> behaves E S V (ret a).
Proof. intros Ha w. split; [now apply logs_nothing | exact Ha]. Qed.

Lemma behaves_halt {A} (V : A -> Prop) (s : stop) :
  S s -> behaves E S V (halt s).
Proof. intros Hs w. split; [now apply logs_nothing | exact Hs]. Qed.

Lemma behaves_bind {A B} (V1 : A -> Prop) (V : B -> Prop)
      (m : io A) (k : A -> io B) :
  behaves E S V1 m ->
  (forall a, V1 a -> behaves E S V (k a)) ->
  behaves E S V (bind m k).
Proof.
  intros Hm Hk w. unfold bind.
  destruct (Hm w) as [[more1 [Hlog1 HE1]] Hres1].
  destruct (m w) as [[a | s] w1]; cbn [fst snd] in *.
  - destruct (Hk a Hres1 w1) as [[more2 [Hlog2 HE2]] Hres2].
    split; [|exact Hres2].
    exists (more1 ++ more2). split.
    + now rewrite Hlog2, Hlog1, app_assoc.
    + now apply Forall_app.
  - split; [|exact Hres1]. now exists more1.
Qed.

Lemma behaves_weaken {A} (V V' : A -> Prop) (m : io A) :
  (forall a, V a -> V' a) -> behaves E S V m -> behaves E S V' m.
Proof.
  intros HV Hm w. destruct (Hm w) as [Hlog Hres]. split; [exact Hlog|].
  destruct (fst (m w)); auto.
Qed.

Lemma behaves_write_tty (V : unit -> Prop) (c : cmd) :
  E (Tx (frame c)) -> V tt -> behaves E S V (write_tty c).
Proof.
  intros He Hv w. split; [|exact Hv].
  exists [Tx (frame c)]. split; [reflexivity|]. now constructor.
Qed.

Lemma behaves_read_tty (V : list Z -> Prop) (n : nat) :
  (forall bs, E (Rx bs)) -> S Blocked -> (forall bs, V bs) ->
  behaves E S V (read_tty n).
Proof.
  intros He Hs Hv w. unfold read_tty.
  destruct (n <=? List.length (tty_in w))%nat; cbn [fst snd].
  - split; [|apply Hv].
    eexists. split; [reflexivity|]. constructor; [apply He | constructor].
  - split; [now apply logs_nothing | exact Hs].
Qed.

Lemma behaves_print (V : unit -> Prop) (s : string) :
  V tt -> behaves E S V (print s).
Proof. intros Hv w. split; [now apply logs_nothing | exact Hv]. Qed.

Lemma behaves_asserted {A} (V : A -> Prop) (o : option A) :
  S Aborted -> (forall a, o = Some a -> V a) -> behaves E S V (asserted o).
Proof.
  intros Hs Hv. destruct o; [apply behaves_ret; auto | now apply behaves_halt].
Qed.

Lemma behaves_defined {A} (V : A -> Prop) (o : option A) :
  S Undefined -> (forall a, o = Some a -> V a) -> behaves E S V (defined o).
Proof.
  intros Hs Hv. destruct o; [apply behaves_ret; auto | now apply behaves_halt].
Qed.

Lemma behaves_times (n : nat) (body : io unit) :
  behaves E S anything body -> behaves E S anything (times n body).
Proof.
  intros Hb. induction n; cbn [times].
  - now apply behaves_ret.
  - eapply behaves_bind; [exact Hb | intros; exact IHn].
Qed.

Lemma behaves_rounds {A} (V : A -> Prop) (loop : nat -> io A) :
  (forall n, behaves E S V (loop n)) -> behaves E S V (rounds loop).
Proof. intros Hl w. unfold rounds. apply Hl. Qed.

End Behaves.

(** One step of a proof that a computation [behaves]: through binds,
    branches and the primitives, leaving what is specific to the goal. *)
Ltac io_step :=
  match goal with
  | |- behaves _ _ _ (bind _ _) =>
      eapply behaves_bind with (V1 := anything); [| intros ? _]
  | |- behaves _ _ _ (ret _) => apply behaves_ret
  | |- behaves _ _ _ (halt _) => apply behaves_halt
  | |- behaves _ _ _ (exit _) => apply behaves_halt
  | |- behaves _ _ _ (print _) => apply behaves_print
  | |- behaves _ _ _ (load _ _) => apply behaves_defined
  | |- behaves _ _ _ (defined _) => apply behaves_defined
  | |- behaves _ _ _ (asserted _) => apply behaves_asserted
  | |- behaves _ _ _ (read_tty _) => apply behaves_read_tty
  | |- behaves _ _ _ read_byte => unfold read_byte
  | |- behaves _ _ _ (rounds _) => apply behaves_rounds; intros ?
  | |- behaves _ _ _ (if ?b then _ else _) => destruct b
  | |- behaves _ _ _ (match ?x with _ => _ end) => destruct x
  | |- behaves _ _ _ (let (_, _) := ?x in _) => destruct x
  | |- anything _ => exact I
  | |- forall _, _ => intro
  end.

Ltac io_run := repeat io_step.

(** ** The extended-metadata switch *)

Ltac quiet_step :=
  first
    [ io_step
    | match goal with
      | |- any_stop _ => exact I
      | |- no_get_meta (Rx _) => discriminate
      | |- no_get_meta (Tx (frame cmd_reset)) => discriminate
      | |- no_get_meta (Tx (frame cmd_id)) => discriminate
      | |- no_get_meta (Tx (frame cmd_run)) => discriminate
      | |- no_get_meta (Tx (frame (cmd_counts _ _))) => discriminate
      | |- behaves _ _ _ argerr => apply behaves_halt
      | |- behaves _ _ _ (write_tty _) => apply behaves_write_tty
      end ].

Ltac quiet := repeat quiet_step.

Lemma guarded_some {A} (b : bool) (x y : A) :
  (if b then Some x else None) = Some y -> x = y.
Proof. destruct b; [intros H; injection H; auto | discriminate]. Qed.

Lemma encoded_frame_is_long (o : option cmd) (c : cmd) :
  o = Some c ->
  (exists d, o = cmd_divider d)
  \/ (exists g a b x y z, o = cmd_flags g a b x y z)
  \/ (exists s m, o = cmd_trig_mask s m)
  \/ (exists s v, o = cmd_trig_value s v)
  \/ (exists s d l ch a b, o = cmd_trig_cfg s d l ch a b) ->
  no_get_meta (Tx (frame c)).
Proof.
  intros Ho Hfrom.
  assert (Hlen : List.length (frame c) = 5%nat).
  { destruct Hfrom as [[d ->] | [[g [a [b [x [y [z ->]]]]]] | [[s [m ->]]
      | [[s [v ->]] | [s [d [l [ch [a [b ->]]]]]]]]]].
    - unfold cmd_divider in Ho. destruct (_ =? _); inversion Ho; reflexivity.
    - unfold cmd_flags in Ho. destruct (_ =? _); inversion Ho; reflexivity.
    - unfold cmd_trig_mask in Ho. apply guarded_some in Ho; subst c; reflexivity.
    - unfold cmd_trig_value in Ho.
      apply guarded_some in Ho; subst c; reflexivity.
    - unfold cmd_trig_cfg in Ho. destruct (_ && _); inversion Ho; reflexivity. }
  intros Heq. inversion Heq as [Hf]. rewrite Hf in Hlen. discriminate.
Qed.

Section Quiet.

Context {R : Type} `{Double R}.
Variable now : string.
Variable strtoull : string -> Z * nat.

Lemma send_quiet (o : option cmd) :
  (forall c, o = Some c -> no_get_meta (Tx (frame c))) ->
  behaves no_get_meta any_stop anything (send o).
Proof.
  intros Ho. unfold send.
  eapply behaves_bind with (V1 := fun c => o = Some c).
  - apply behaves_asserted; [exact I | auto].
  - intros c Hc. apply behaves_write_tty; [auto | exact I].
Qed.

Ltac sends :=
  apply send_quiet; intros ? ?; eapply encoded_frame_is_long; [eassumption|];
  eauto 12.

Lemma later_stages_quiet (todo : nat) (i : Z) :
  behaves no_get_meta any_stop anything (later_stages todo i).
Proof.
  revert i; induction todo; intros i; cbn [later_stages].
  - quiet.
  - quiet; [sends | sends | sends | apply IHtodo].
Qed.

Lemma write_vcd_value_quiet (c : cfg) (vali sample : Z) :
  behaves no_get_meta any_stop anything (write_vcd_value c vali sample).
Proof.
  unfold write_vcd_value. quiet.
  generalize (ret tt : io unit)
             (behaves_ret no_get_meta any_stop anything tt I).
  induction (bitmasks (value_at c vali)) as [|bm bms IH]; intros acc Hacc.
  - exact Hacc.
  - cbn [fold_left]. apply IH. quiet. exact Hacc.
Qed.

Lemma infer_timescale_quiet (c : cfg) :
  behaves no_get_meta any_stop anything (infer_timescale c).
Proof. unfold infer_timescale. quiet. Qed.

Lemma vcd_vars_quiet (todo : nat) (c : cfg) (vali : Z) :
  behaves no_get_meta any_stop anything (vcd_vars todo c vali).
Proof.
  revert vali; induction todo; intros vali; cbn [vcd_vars]; quiet.
  apply IHtodo.
Qed.

Lemma vcd_dumpvars_quiet (todo : nat) (c : cfg) (vali : Z) :
  behaves no_get_meta any_stop anything (vcd_dumpvars todo c vali).
Proof.
  revert vali; induction todo; intros vali; cbn [vcd_dumpvars]; quiet.
  - apply write_vcd_value_quiet.
  - apply IHtodo.
Qed.

Lemma vcd_word_quiet (todo : nat) (m : memory) (c : cfg) (ptr j cur : Z) :
  behaves no_get_meta any_stop anything (vcd_word todo m c ptr j cur).
Proof.
  revert j cur; induction todo; intros j cur; cbn [vcd_word]; quiet.
  apply IHtodo.
Qed.

Lemma vcd_changes_quiet (todo : nat) (c : cfg) (period : R)
      (num_samples i cur changed vali : Z) (written_time : bool) :
  behaves no_get_meta any_stop anything
          (vcd_changes todo c period num_samples i cur changed vali written_time).
Proof.
  revert vali written_time; induction todo; intros vali written_time;
    cbn [vcd_changes]; quiet;
    try apply write_vcd_value_quiet; apply IHtodo.
Qed.

Lemma vcd_samples_quiet (todo : nat) (m : memory) (c : cfg) (period : R)
      (num_samples i prev ptr : Z) :
  behaves no_get_meta any_stop anything
          (vcd_samples todo m c period num_samples i prev ptr).
Proof.
  revert i prev ptr; induction todo; intros i prev ptr; cbn [vcd_samples];
    quiet.
  - apply vcd_word_quiet.
  - apply vcd_changes_quiet.
  - apply IHtodo.
Qed.

Lemma write_vcd_quiet (c : cfg) (m : memory) (sample_buf num_samples : Z) :
  behaves no_get_meta any_stop anything
          (write_vcd now c m sample_buf num_samples).
Proof.
  unfold write_vcd. quiet.
  - apply infer_timescale_quiet.
  - apply vcd_vars_quiet.
  - apply vcd_dumpvars_quiet.
  - apply vcd_samples_quiet.
Qed.

Lemma fwrite_quiet (todo : nat) (m : memory) (p : Z) :
  behaves no_get_meta any_stop anything (fwrite todo m p).
Proof.
  revert p; induction todo; intros p; cbn [fwrite]; quiet. apply IHtodo.
Qed.

Lemma hex_sample_quiet (todo : nat) (m : memory) (c : cfg) (ptr j : Z) :
  behaves no_get_meta any_stop anything (hex_sample todo m c ptr j).
Proof.
  revert j; induction todo; intros j; cbn [hex_sample]; quiet. apply IHtodo.
Qed.

Lemma dump_samples_quiet (todo : nat) (m : memory) (c : cfg) (ptr : Z) :
  behaves no_get_meta any_stop anything (dump_samples todo m c ptr).
Proof.
  revert ptr; induction todo; intros ptr; cbn [dump_samples]; quiet;
    try apply fwrite_quiet; try apply hex_sample_quiet; apply IHtodo.
Qed.

Lemma capture_quiet (c : cfg) :
  behaves no_get_meta any_stop anything (capture now c).
Proof.
  unfold capture. quiet;
    try (apply behaves_times; quiet);
    try sends;
    try apply later_stages_quiet;
    try apply write_vcd_quiet;
    try apply dump_samples_quiet.
Qed.

Lemma args_number_quiet (a : args) :
  behaves no_get_meta any_stop anything (args_number strtoull a).
Proof. unfold args_number. quiet. Qed.

Lemma args_si_unit_quiet (a : args) (unit : string) :
  behaves no_get_meta any_stop anything (args_si_unit strtoull a unit).
Proof. unfold args_si_unit. quiet. Qed.

Lemma args_numeqnum_quiet (a : args) :
  behaves no_get_meta any_stop anything (args_numeqnum strtoull a).
Proof. unfold args_numeqnum. quiet. Qed.

Lemma split_bits_quiet (todo : nat) (tm n : Z) (bits : list Z) :
  behaves no_get_meta any_stop anything (split_bits todo tm n bits).
Proof.
  revert tm bits; induction todo; intros tm bits; cbn [split_bits]; quiet;
    apply IHtodo.
Qed.

Lemma vcd_masks_quiet (fuel : nat) (p : string) (vv : vcd_value) :
  behaves no_get_meta any_stop anything (vcd_masks strtoull fuel p vv).
Proof.
  revert p vv; induction fuel; intros p vv; cbn [vcd_masks]; quiet.
  - apply split_bits_quiet.
  - apply IHfuel.
Qed.

Lemma args_vcd_value_quiet (a : args) (vv : vcd_value) :
  behaves no_get_meta any_stop anything (args_vcd_value strtoull a vv).
Proof. unfold args_vcd_value. quiet. apply vcd_masks_quiet. Qed.

Lemma parse_option_meta_off (a : args) (c : cfg) (after_trig : Z) :
  ext_meta c = false ->
  behaves no_get_meta any_stop meta_off (parse_option strtoull a c after_trig).
Proof.
  intros Hc. unfold parse_option.
  destruct (args_pop a) as [popped a'].
  repeat match goal with
         | |- behaves _ _ _ (if ?b then _ else _) => destruct b
         end;
    try (eapply behaves_bind with (V1 := anything);
         [ first [ apply args_number_quiet | apply args_si_unit_quiet
                 | apply args_numeqnum_quiet | apply args_vcd_value_quiet ]
         | intros r _ ]);
    first [ apply behaves_ret; exact Hc
          | apply behaves_ret; reflexivity
          | apply behaves_halt; exact I ].
Qed.

Lemma parse_options_meta_off (fuel : nat) (a : args) (c : cfg)
      (after_trig : Z) :
  ext_meta c = false ->
  behaves no_get_meta any_stop (fun r => ext_meta (fst r) = false)
          (parse_options strtoull fuel a c after_trig).
Proof.
  revert a c after_trig; induction fuel; intros a c after_trig Hc;
    cbn [parse_options]; destruct (pos a <? argc a).
  - now apply behaves_halt.
  - now apply behaves_ret.
  - eapply behaves_bind; [apply parse_option_meta_off; exact Hc|].
    intros [[a' c'] after_trig'] Hoff. apply IHfuel. exact Hoff.
  - now apply behaves_ret.
Qed.

Lemma read_ident_meta_off (c : cfg) :
  ext_meta c = false ->
  behaves no_get_meta any_stop (fun c' => ext_meta c' = false) (read_ident c).
Proof.
  intros Hc. unfold read_ident. rewrite Hc. cbn [negb].
  quiet; try (apply behaves_times; quiet). exact Hc.
Qed.

Lemma derive_keeps_ext_meta (c : cfg) (after_trig : Z) :
  behaves no_get_meta any_stop (fun c' => ext_meta c' = ext_meta c)
          (derive c after_trig).
Proof.
  unfold derive.
  eapply behaves_bind with (V1 := anything); [quiet | intros one _].
  match goal with
  | |- behaves _ _ _ (bind _ ?k) =>
      eapply behaves_bind with (V1 := fun c' => ext_meta c' = ext_meta c)
  end.
  - destruct (samples _ =? 0).
    + eapply behaves_bind with (V1 := anything); [quiet | intros q _].
      apply behaves_ret. cbn [set_samples ext_meta].
      destruct (group_enable _ =? 0); reflexivity.
    + apply behaves_ret. destruct (group_enable _ =? 0); reflexivity.
  - intros c' Hc'.
    destruct (clk_freq_hz _ =? 0); [now apply behaves_halt|].
    apply behaves_ret. destruct (negb _); exact Hc'.
Qed.

Lemma main_quiet (argv : list string) :
  behaves no_get_meta any_stop anything (main now strtoull argv).
Proof.
  unfold main.
  eapply behaves_bind with (V1 := anything); [quiet | intros _ _].
  eapply behaves_bind;
    [apply parse_options_meta_off; reflexivity | intros [c after_trig] Hc].
  cbn [fst] in Hc.
  eapply behaves_bind; [apply read_ident_meta_off; exact Hc | intros c1 Hc1].
  eapply behaves_bind with (V1 := anything);
    [eapply behaves_weaken; [|apply derive_keeps_ext_meta]; intros; exact I
    | intros c2 _].
  quiet. apply capture_quiet.
Qed.

(** C9.  Whatever the command line, with or without [extmeta], and whatever
    the device sends: the configuration the parser hands on has [ext_meta]
    clear, and the run of [main] never puts the get-metadata command on the
    line, so that the metadata loop, which only follows that command, is
    never entered. *)
Theorem extmeta_never_enabled (argv : list string) (input : list Z) :
  match fst (parse_options strtoull (List.length argv)
               {| argv := argv; argc := Z.of_nat (List.length argv); pos := 2 |}
               default_cfg UINT32_MAX (boot input)) with
  | Ok r => ext_meta (fst r) = false
  | Stop _ => True
  end
  /\ Forall (fun e => e <> Tx (frame cmd_get_meta))
            (tty_log (snd (main now strtoull argv (boot input)))).
Proof.
  split.
  - destruct (parse_options_meta_off (List.length argv)
                {| argv := argv; argc := Z.of_nat (List.length argv); pos := 2 |}
                default_cfg UINT32_MAX eq_refl (boot input)) as [_ Hres].
    destruct (fst _); [exact Hres | exact I].
  - destruct (main_quiet argv (boot input)) as [[more [Hlog Hmore]] _].
    rewrite Hlog. exact Hmore.
Qed.

End Quiet.

(** ** The handshake *)

Ltac meta_step :=
  first
    [ io_step
    | match goal with
      | |- only_blocked Blocked => reflexivity
      | |- behaves _ _ _ (write_tty _) => apply behaves_write_tty
      end ].

Lemma meta_string_blocks (fuel : nat) (i : Z) :
  behaves anything only_blocked anything (meta_string fuel i).
Proof.
  revert i; induction fuel; intros i; cbn [meta_string]; repeat meta_step.
  apply IHfuel.
Qed.

Lemma meta_drain_blocks (fuel : nat) :
  behaves anything only_blocked anything (meta_drain fuel).
Proof.
  induction fuel; cbn [meta_drain]; repeat meta_step. apply IHfuel.
Qed.

Lemma meta_loop_blocks (fuel : nat) (c : cfg) :
  behaves anything only_blocked anything (meta_loop fuel c).
Proof.
  revert c; induction fuel; intros c; cbn [meta_loop]; repeat meta_step;
    first [ apply meta_string_blocks | apply meta_drain_blocks | apply IHfuel ].
Qed.

Lemma meta_phase_blocks (c : cfg) :
  behaves anything only_blocked anything
          (write_tty cmd_get_meta ;;; rounds (fun n => meta_loop n c)).
Proof. repeat meta_step. apply meta_loop_blocks. Qed.

Lemma handshake_prefix {A} (k : list Z -> io A) (w : world)
      (ident rest : list Z) :
  tty_in w = ident ++ rest ->
  List.length ident = 4%nat ->
  (times 5 (write_tty cmd_reset) ;;; write_tty cmd_id ;;;
   got <- read_tty 4 ;; k got) w
  = k ident (after_ident w ident rest).
Proof.
  intros Hin Hlen.
  cbn [times]. unfold bind, write_tty, read_tty, ret.
  cbn [tty_in tty_log stdout].
  rewrite Hin, length_app, Hlen. cbn [Nat.add Nat.leb].
  rewrite <- Hlen, firstn_app, firstn_all, Nat.sub_diag, skipn_app, skipn_all,
    Nat.sub_diag.
  cbn [firstn skipn]. rewrite app_nil_r. cbn [app].
  unfold after_ident. rewrite <- !app_assoc. reflexivity.
Qed.

(** C7.  With a device that delivers four bytes [ident], [read_ident] puts
    five resets and one identify on the line and then reads those four bytes;
    it exits with the failure status exactly when they are not ["1ALS"], and
    in that case nothing more crosses the line: the log ends there and what
    the device sends next stays unread. *)
Theorem read_ident_handshake (c : cfg) (w : world) (ident rest : list Z) :
  tty_in w = ident ++ rest ->
  List.length ident = 4%nat ->
  exists more,
    tty_log (snd (read_ident c w))
    = tty_log w
      ++ [ Tx (frame cmd_reset); Tx (frame cmd_reset); Tx (frame cmd_reset);
           Tx (frame cmd_reset); Tx (frame cmd_reset); Tx (frame cmd_id);
           Rx ident ]
      ++ more
    /\ (ident <> ident_1ALS
        <-> fst (read_ident c w) = Stop (Exited EXIT_FAILURE))
    /\ (ident <> ident_1ALS ->
        more = [] /\ tty_in (snd (read_ident c w)) = rest)
    /\ EXIT_FAILURE <> 0.
Proof.
  intros Hin Hlen. unfold read_ident.
  rewrite (handshake_prefix _ w ident rest Hin Hlen).
  unfold memcmp_eq.
  destruct (list_eq_dec Z.eq_dec ident ident_1ALS) as [Heq | Hne];
    cbn [negb].
  - destruct (ext_meta c); cbn [negb].
    + destruct (meta_phase_blocks c (after_ident w ident rest))
        as [[more [Hlog _]] Hstop].
      exists more. repeat split.
      * rewrite Hlog. unfold after_ident; cbn [tty_log].
        now rewrite <- app_assoc.
      * intros Hne; contradiction.
      * intros Hexit. rewrite Hexit in Hstop. discriminate.
      * contradiction.
      * contradiction.
      * discriminate.
    + exists []. cbn [ret fst snd after_ident tty_log tty_in].
      repeat split; try contradiction; try discriminate.
  - exists []. cbn [exit halt fst snd after_ident tty_log tty_in].
    repeat split; auto; discriminate.
Qed.

Lemma read_ident_handshake_witness :
  tty_in (boot [49; 65; 76; 84; 7; 7]) = [49; 65; 76; 84] ++ [7; 7]
  /\ List.length [49; 65; 76; 84] = 4%nat
  /\ exists more,
      tty_log (snd (read_ident default_cfg (boot [49; 65; 76; 84; 7; 7])))
      = tty_log (boot [49; 65; 76; 84; 7; 7])
        ++ [ Tx (frame cmd_reset); Tx (frame cmd_reset); Tx (frame cmd_reset);
             Tx (frame cmd_reset); Tx (frame cmd_reset); Tx (frame cmd_id);
             Rx [49; 65; 76; 84] ]
        ++ more
      /\ ([49; 65; 76; 84] <> ident_1ALS
          <-> fst (read_ident default_cfg (boot [49; 65; 76; 84; 7; 7]))
              = Stop (Exited EXIT_FAILURE))
      /\ ([49; 65; 76; 84] <> ident_1ALS ->
          more = []
          /\ tty_in (snd (read_ident default_cfg (boot [49; 65; 76; 84; 7; 7])))
             = [7; 7])
      /\ EXIT_FAILURE <> 0.
Proof.
  split; [reflexivity | split; [reflexivity |]].
  apply (read_ident_handshake default_cfg (boot [49; 65; 76; 84; 7; 7])
                              [49; 65; 76; 84] [7; 7]); reflexivity.
Defined.

(** ** Counting the enabled groups *)

Lemma count_groups_bounds (fuel : nat) (n acc : Z) :
  0 <= acc -> acc + Z.of_nat fuel < 2 ^ 32 ->
  acc <= count_groups fuel n acc <= acc + Z.of_nat fuel.
Proof.
  revert n acc; induction fuel as [|fuel IH]; intros n acc Hacc Hfit;
    cbn [count_groups].
  - lia.
  - destruct (n =? 0); [lia|].
    assert (Hu : u32 (acc + 1) = acc + 1) by (apply Z.mod_small; lia).
    rewrite Hu. specialize (IH (Z.shiftr n 1) (acc + 1)). lia.
Qed.

(** The loop counts the shifts that empty [n]: one more than the position of
    its highest set bit. *)
Lemma count_groups_bit_length (fuel : nat) (n acc : Z) :
  0 < n -> Z.log2 n < Z.of_nat fuel -> 0 <= acc ->
  acc + Z.of_nat fuel < 2 ^ 32 ->
  count_groups fuel n acc = acc + Z.log2 n + 1.
Proof.
  revert n acc; induction fuel as [|fuel IH]; intros n acc Hn Hlog Hacc Hfit.
  - pose proof (Z.log2_nonneg n). lia.
  - cbn [count_groups]. destruct (Z.eqb_spec n 0); [lia|].
    assert (Hu : u32 (acc + 1) = acc + 1) by (apply Z.mod_small; lia).
    rewrite Hu.
    destruct (Z.eq_dec n 1) as [-> | Hn1].
    + cbn [Z.shiftr Z.shiftl Z.log2 Pos.div2 Z.div2 Pos.iter].
      destruct fuel; cbn [count_groups]; simpl; lia.
    + assert (Hs : 0 < Z.shiftr n 1).
      { rewrite Z.shiftr_div_pow2 by lia. change (2 ^ 1) with 2.
        apply Z.div_str_pos. lia. }
      rewrite IH; try lia.
      * rewrite Z.log2_shiftr by lia.
        assert (1 <= Z.log2 n) by (apply Z.log2_le_pow2; simpl; lia).
        lia.
      * rewrite Z.log2_shiftr by lia.
        assert (1 <= Z.log2 n) by (apply Z.log2_le_pow2; simpl; lia).
        lia.
Qed.

(** C1.  With [groups 4] on the command line and the default 32 probes the
    group mask is [0xF], one group is enabled, and [num_groups_enabled] comes
    out as 3: the loop counts shifts, not set bits. *)
Theorem num_groups_enabled_counts_shifts :
  fst (parse_options Strtoull.strtoull 4
         {| argv := ["sump-dump"; "/dev/ttyUSB1"; "groups"; "4"]%string;
            argc := 4; pos := 2 |}
         default_cfg UINT32_MAX (boot []))
  = Ok (set_group_enable default_cfg 4, UINT32_MAX)
  /\ exists c,
      fst (derive (set_group_enable default_cfg 4) UINT32_MAX (boot [])) = Ok c
      /\ group_enable c = 4
      /\ group_mask c = 15
      /\ num_groups_enabled c = 3
      /\ spec_popcount (Z.land (group_enable c) (group_mask c)) = 1.
Proof.
  split; [vm_compute; reflexivity|].
  eexists. split; [vm_compute; reflexivity|].
  repeat split.
Qed.

(** ** The 32-bit metadata entry *)

(** C6.  On the stream 20 00 00 00 20 00 the 32-bit entry gives 32 and the
    loop ends at the zero tag with nothing left unread; but the most significant
    byte of the result is taken from the third payload byte, not the first:
    the payload 01 00 00 00 sets [num_probes] to 0, not to 0x01000000, and
    00 00 01 00 sets it to 0x01000100. *)
Theorem meta_u32_ignores_first_byte :
  let c := set_ext_meta default_cfg true in
  let run payload :=
    read_ident c (boot (ident_1ALS ++ [0x20] ++ payload ++ [0])) in
  fst (run [0; 0; 0; 0x20]) = Ok (set_num_probes c 0x20)
  /\ tty_in (snd (run [0; 0; 0; 0x20])) = []
  /\ fst (run [1; 0; 0; 0]) = Ok (set_num_probes c 0)
  /\ spec_be32 [1; 0; 0; 0] = 0x01000000
  /\ fst (run [0; 0; 1; 0]) = Ok (set_num_probes c 0x01000100)
  /\ spec_be32 [0; 0; 1; 0] = 0x100.
Proof. vm_compute. repeat split. Qed.

(** ** Rendering the sample buffer *)

(** C2.  Four one-byte samples, newest first in the buffer as the device
    sends them: 44 43 42 41.  The hex loop starts one byte short of the end
    of the buffer, so it prints 42, 43, 44 and then reads the byte before the
    buffer; the oldest sample, 41, is never printed.  With a readable byte EE
    below the buffer that byte is printed as the fourth line. *)
Theorem hex_dump_starts_one_byte_early :
  let argv := ["sump-dump"; "/dev/ttyUSB1"; "groups"; "1"; "samples";
               "4"]%string in
  let bytes := [0x44; 0x43; 0x42; 0x41] in
  let run := main (R := float) some_date Strtoull.strtoull argv
                  (boot (ident_1ALS ++ bytes)) in
  let c := set_num_groups_enabled default_cfg 1 in
  fst run = Stop Undefined
  /\ stdout (snd run) = ("42" ++ nl ++ "43" ++ nl ++ "44" ++ nl)%string
  /\ Spec.hex_dump 4 1 bytes
     = ("41" ++ nl ++ "42" ++ nl ++ "43" ++ nl ++ "44" ++ nl)%string
  /\ stdout (snd (dump_samples 4 (block_above [0xEE] bytes) c 3 (boot [])))
     = ("42" ++ nl ++ "43" ++ nl ++ "44" ++ nl ++ "EE" ++ nl)%string.
Proof. vm_compute. repeat split. Qed.

(** C3.  The same capture with [raw]: the pointer moves back twice per
    round, so only every other sample is written, again one byte early: the
    output is BD, then the loop reads below the buffer; the specification
    asks for ABCD. *)
Theorem raw_dump_skips_samples :
  let argv := ["sump-dump"; "/dev/ttyUSB1"; "groups"; "1"; "samples"; "4";
               "raw"]%string in
  let bytes := [0x44; 0x43; 0x42; 0x41] in
  let run := main (R := float) some_date Strtoull.strtoull argv
                  (boot (ident_1ALS ++ bytes)) in
  fst run = Stop Undefined
  /\ stdout (snd run) = "BD"%string
  /\ Spec.raw_dump 4 1 bytes = "ABCD"%string.
Proof. vm_compute. repeat split. Qed.

(** C4.  Two one-byte samples, 01 then 11 in time, so 11 01 in the buffer,
    and one value on bit 1.  The specification has no state line at index 0
    and one at index 1.  [write_vcd] takes the buffer's first byte, 11, for
    sample 0, so it prints a time stamp and the state 1 at index 0, and then
    reads the byte before the buffer for sample 1; with a readable zero byte
    there, it reports a change back to 0 at index 1. *)
Theorem vcd_samples_start_one_byte_early :
  let argv := ["sump-dump"; "/dev/ttyUSB1"; "groups"; "1"; "samples"; "2";
               "vcd"; "d=0x2"]%string in
  let bytes := [3; 1] in
  let run := main (R := float) some_date Strtoull.strtoull argv
                  (boot (ident_1ALS ++ bytes)) in
  let words := map Spec.word_of (Spec.chronological 2 1 bytes) in
  words = [1; 3]
  /\ Spec.emits 2 words 0 = false
  /\ Spec.emits 2 words 1 = true
  /\ fst run = Stop Undefined
  /\ stdout (snd run)
     = (vcd_header one_bit_cfg ++ "#0" ++ nl ++ "1!" ++ nl)%string
  /\ stdout (snd (write_vcd (R := float) some_date one_bit_cfg
                            (block_above [0] bytes) 0 2 (boot [])))
     = (vcd_header one_bit_cfg ++ "#0" ++ nl ++ "1!" ++ nl
          ++ "#100" ++ nl ++ "0!" ++ nl)%string.
Proof. vm_compute. repeat split. Qed.

(** ** Deriving the number of enabled groups *)

Lemma count_groups_step (fuel : nat) (n acc : Z) :
  n <> 0 -> 0 <= acc -> acc + Z.of_nat (S fuel) < 2 ^ 32 ->
  acc + 1 <= count_groups (S fuel) n acc <= acc + Z.of_nat (S fuel).
Proof.
  intros Hn Hacc Hfit. cbn [count_groups].
  destruct (Z.eqb_spec n 0); [contradiction|].
  assert (Hu : u32 (acc + 1) = acc + 1) by (apply Z.mod_small; lia).
  rewrite Hu.
  pose proof (count_groups_bounds fuel (Z.shiftr n 1) (acc + 1)). lia.
Qed.

Lemma count_groups_positive (n : Z) :
  n <> 0 -> 1 <= count_groups 32 n 0 <= 32.
Proof.
  intros Hn.
  pose proof (count_groups_step 31 n 0 Hn ltac:(lia) ltac:(cbn; lia)) as Hb.
  change (Z.of_nat 32) with 32 in Hb. exact Hb.
Qed.

Lemma group_mask_of_probes (np : Z) :
  1 <= np <= 248 ->
  let mg := u32 (np + 7) / 8 in
  1 <= mg <= 31
  /\ mg = (np + 7) / 8
  /\ shl1 mg = Some (2 ^ mg)
  /\ u32 (2 ^ mg - 1) = 2 ^ mg - 1
  /\ 1 <= 2 ^ mg - 1.
Proof.
  intros Hnp mg.
  assert (Hu : u32 (np + 7) = np + 7).
  { apply Z.mod_small. change (2 ^ 32) with 4294967296. lia. }
  assert (Hmg : 1 <= mg <= 31).
  { unfold mg. rewrite Hu. split.
    - apply Z.div_le_lower_bound; lia.
    - apply Z.lt_succ_r, Z.div_lt_upper_bound; lia. }
  assert (Hpow : 2 ^ 1 <= 2 ^ mg < 2 ^ 32).
  { split; [apply Z.pow_le_mono_r | apply Z.pow_lt_mono_r]; lia. }
  change (2 ^ 1) with 2 in Hpow.
  repeat split; try lia.
  - unfold mg. now rewrite Hu.
  - unfold shl1. destruct (Z.ltb_spec mg 32); [|lia].
    rewrite Z.shiftl_1_l. f_equal. apply Z.mod_small. lia.
  - apply Z.mod_small. lia.
Qed.

(** [derive] in one piece, for a probe count whose shift is defined. *)
Lemma derive_unfolded (c : cfg) (after_trig : Z) (w : world) (one : Z) :
  shl1 (u32 (num_probes c + 7) / 8) = Some one ->
  let mg := u32 (num_probes c + 7) / 8 in
  let gm := u32 (one - 1) in
  let ge := if group_enable c =? 0 then gm else group_enable c in
  let g := count_groups 32 (Z.land ge gm) 0 in
  let s := if samples c =? 0 then sample_memory c / g else samples c in
  let bt := if negb (after_trig =? UINT32_MAX) then
              u32 (s - (if after_trig >? s then s else after_trig))
            else before_trig c in
  derive c after_trig w
  = if (samples c =? 0) && (g =? 0) then (Stop Undefined, w)
    else if clk_freq_hz c =? 0 then (Stop (Exited EXIT_FAILURE), w)
    else (Ok (mk_cfg ge (trigger_mask c) (trigger_value c) (clk_divisor c) s
                     bt (rle c) (raw c) (ext_meta c) (clk_freq_hz c)
                     (sample_memory c) (num_probes c) (vcd_values c) mg gm g),
          w).
Proof.
  intros Hshl mg gm ge g s bt.
  unfold derive. rewrite Hshl.
  unfold bind, defined, ret, halt, exit, udiv.
  subst bt s g ge. fold mg gm.
  cbn [set_groups group_enable group_mask].
  destruct (group_enable c =? 0);
    cbn [set_groups set_group_enable set_num_groups_enabled set_samples
         set_before_trig group_enable trigger_mask trigger_value clk_divisor
         samples before_trig rle raw ext_meta clk_freq_hz sample_memory
         num_probes vcd_values max_groups group_mask num_groups_enabled];
    destruct (samples c =? 0); cbn [andb];
    try destruct (count_groups 32 _ 0 =? 0);
    cbn [set_groups set_group_enable set_num_groups_enabled set_samples
         set_before_trig group_enable trigger_mask trigger_value clk_divisor
         samples before_trig rle raw ext_meta clk_freq_hz sample_memory
         num_probes vcd_values max_groups group_mask num_groups_enabled];
    try reflexivity;
    destruct (negb (after_trig =? UINT32_MAX));
    cbn [set_groups set_group_enable set_num_groups_enabled set_samples
         set_before_trig group_enable trigger_mask trigger_value clk_divisor
         samples before_trig rle raw ext_meta clk_freq_hz sample_memory
         num_probes vcd_values max_groups group_mask num_groups_enabled];
    destruct (clk_freq_hz c =? 0); reflexivity.
Qed.

(** C10, as amended.  When the probe count is between 1 and 248 and the
    group mask asked for is 0 or shares a bit with the mask of the groups
    that exist, the derivation gives at least one enabled group, so that
    [sample_memory / num_groups_enabled] is defined, and the derivation ends
    either with that configuration or with the exit on a zero clock
    frequency.  With a probe count of 0 the group mask and the count are 0:
    the division for the default sample count is by zero, and when a sample
    count was given the derivation hands on a count of 0 for [capture] to
    divide by. *)
Theorem derive_enables_a_group (c : cfg) (after_trig : Z) (w : world) :
  (1 <= num_probes c <= 248 ->
   group_enable c = 0
   \/ Z.land (group_enable c) (2 ^ ((num_probes c + 7) / 8) - 1) <> 0 ->
   exists g,
     1 <= g
     /\ udiv (sample_memory c) g = Some (sample_memory c / g)
     /\ match fst (derive c after_trig w) with
        | Ok c' => num_groups_enabled c' = g
                   /\ sample_memory c' = sample_memory c
        | Stop s => s = Exited EXIT_FAILURE /\ clk_freq_hz c = 0
        end)
  /\ (num_probes c = 0 ->
      match fst (derive c after_trig w) with
      | Ok c' => samples c <> 0
                 /\ group_mask c' = 0
                 /\ num_groups_enabled c' = 0
                 /\ udiv (sample_memory c') (num_groups_enabled c') = None
      | Stop s => (s = Undefined /\ samples c = 0)
                  \/ (s = Exited EXIT_FAILURE /\ samples c <> 0)
      end).
Proof.
  split.
  - intros Hnp Hge.
    destruct (group_mask_of_probes (num_probes c) Hnp)
      as [Hmg [Hmg' [Hshl [Hgm Hgm1]]]].
    set (mg := u32 (num_probes c + 7) / 8) in *.
    set (n := Z.land (if group_enable c =? 0 then 2 ^ mg - 1 else group_enable c)
                     (2 ^ mg - 1)).
    assert (Hn : n <> 0).
    { unfold n. destruct (Z.eqb_spec (group_enable c) 0) as [H0 | H0].
      - rewrite Z.land_diag. lia.
      - destruct Hge as [Hge | Hge]; [contradiction|]. now rewrite Hmg'. }
    pose proof (count_groups_positive n Hn) as Hg.
    exists (count_groups 32 n 0). split; [lia|]. split.
    { unfold udiv.
      destruct (Z.eqb_spec (count_groups 32 n 0) 0); [lia | reflexivity]. }
    rewrite (derive_unfolded c after_trig w (2 ^ mg) Hshl).
    cbv zeta. fold mg. rewrite Hgm. fold n.
    destruct (Z.eqb_spec (count_groups 32 n 0) 0) as [H0 | H0]; [lia|].
    rewrite andb_false_r.
    destruct (Z.eqb_spec (clk_freq_hz c) 0); cbn [fst]; auto.
  - intros Hnp.
    assert (Hshl : shl1 (u32 (num_probes c + 7) / 8) = Some 1)
      by (rewrite Hnp; reflexivity).
    rewrite (derive_unfolded c after_trig w 1 Hshl).
    cbv zeta. change (u32 (1 - 1)) with 0.
    rewrite Z.land_0_r.
    change (count_groups 32 0 0) with 0. cbn [Z.eqb].
    rewrite andb_true_r.
    destruct (Z.eqb_spec (samples c) 0) as [Hs | Hs]; cbn [fst].
    + left. split; [reflexivity | exact Hs].
    + destruct (clk_freq_hz c =? 0); cbn [fst].
      * right. split; [reflexivity | exact Hs].
      * cbn [group_mask num_groups_enabled sample_memory].
        repeat split. exact Hs.
Qed.

Lemma derive_enables_a_group_witness :
  exists g,
    1 <= g
    /\ udiv (sample_memory default_cfg) g = Some (sample_memory default_cfg / g)
    /\ match fst (derive default_cfg UINT32_MAX (boot [])) with
       | Ok c' => num_groups_enabled c' = g
                  /\ sample_memory c' = sample_memory default_cfg
       | Stop s => s = Exited EXIT_FAILURE /\ clk_freq_hz default_cfg = 0
       end.
Proof.
  apply (proj1 (derive_enables_a_group default_cfg UINT32_MAX (boot []))).
  - cbn. lia.
  - left. reflexivity.
Defined.

(** C10, as stated, fails: with the default 32 probes and [groups 16] no
    requested group exists, the count is 0 and the default sample count
    divides by zero; a probe count of 4294967295 wraps to no group at all;
    and a probe count of 256 asks for a shift by 32. *)
Lemma probe_count_does_not_bound_groups :
  (1 <= num_probes (set_group_enable default_cfg 16)
   /\ count_groups 32 (Z.land 16 15) 0 = 0
   /\ fst (derive (set_group_enable default_cfg 16) UINT32_MAX (boot []))
      = Stop Undefined)
  /\ (1 <= num_probes (set_num_probes default_cfg 4294967295)
      /\ u32 (4294967295 + 7) / 8 = 0
      /\ fst (derive (set_num_probes default_cfg 4294967295) UINT32_MAX
                     (boot []))
         = Stop Undefined)
  /\ (1 <= num_probes (set_num_probes default_cfg 256)
      /\ shl1 (u32 (256 + 7) / 8) = None
      /\ fst (derive (set_num_probes default_cfg 256) UINT32_MAX (boot []))
         = Stop Undefined).
Proof. vm_compute. repeat split; discriminate. Qed.

(** ** The time scale *)

(** Twelve steps are enough for any 32-bit divisor and frequency. *)
Lemma twelve_tens_suffice (d f : Z) :
  1 <= d -> f < 2 ^ 32 -> 100 * f <= d * 10 ^ 12.
Proof.
  intros Hd Hf. change (2 ^ 32) with 4294967296 in Hf.
  change (10 ^ 12) with 1000000000000. nia.
Qed.

(** *** Binary64, from the specification of the primitive floats *)

Lemma digits2_pos_size (p : positive) : digits2_pos p = Pos.size p.
Proof. induction p; cbn [digits2_pos Pos.size]; congruence. Qed.

Lemma digits2_pos_log2 (p : positive) :
  Z.pos (digits2_pos p) = Z.log2 (Z.pos p) + 1.
Proof.
  rewrite digits2_pos_size.
  destruct p; cbn [Pos.size Z.log2]; rewrite ?Pos2Z.inj_succ; lia.
Qed.

Lemma digits2_pos_bounds (p : positive) :
  2 ^ (Z.pos (digits2_pos p) - 1) <= Z.pos p < 2 ^ Z.pos (digits2_pos p).
Proof.
  rewrite digits2_pos_log2.
  replace (Z.log2 (Z.pos p) + 1 - 1) with (Z.log2 (Z.pos p)) by lia.
  apply Z.log2_spec. lia.
Qed.

Lemma digits2_pos_unique (p : positive) (L : Z) :
  2 ^ (L - 1) <= Z.pos p < 2 ^ L -> Z.pos (digits2_pos p) = L.
Proof.
  intros Hp. rewrite digits2_pos_log2.
  assert (0 <= L - 1).
  { destruct (Z.le_gt_cases 0 (L - 1)) as [|Hneg]; [assumption|].
    assert (L <= 0) by lia.
    assert (2 ^ L <= 2 ^ 0) by (apply Z.pow_le_mono_r; lia).
    change (2 ^ 0) with 1 in *. lia. }
  rewrite (Z.log2_unique (Z.pos p) (L - 1)); [lia | lia |].
  replace (Z.succ (L - 1)) with L by lia. exact Hp.
Qed.

Lemma iter_pos_iter {A} (f : A -> A) (p : positive) (x : A) :
  iter_pos f p x = Pos.iter f x p.
Proof.
  revert x; induction p as [p IH | p IH |]; intros x;
    cbn [iter_pos Pos.iter]; rewrite ?IH; try reflexivity.
  now rewrite <- !Pos.iter_swap.
Qed.

Lemma iter_xO (m d : positive) :
  Z.pos (Pos.iter xO m d) = Z.pos m * 2 ^ Z.pos d.
Proof.
  apply (Pos.iter_ind _ xO m (fun d r => Z.pos r = Z.pos m * 2 ^ Z.pos d)).
  - change (2 ^ 1) with 2. lia.
  - intros p a' IH. rewrite Pos2Z.inj_succ, Z.pow_succ_r by lia.
    rewrite Pos2Z.inj_xO, IH. lia.
Qed.

Lemma shr_1_m (r : shr_record) :
  0 <= shr_m r -> shr_m (shr_1 r) = shr_m r / 2.
Proof.
  destruct r as [m r s]. cbn [shr_m]. intros Hm.
  rewrite <- Z.div2_div.
  destruct m as [|[p | p |]|]; try reflexivity. lia.
Qed.

Lemma shr_1_exact (r : shr_record) :
  0 <= shr_m r -> shr_m r mod 2 = 0 -> shr_r r = false -> shr_s r = false ->
  shr_r (shr_1 r) = false /\ shr_s (shr_1 r) = false.
Proof.
  destruct r as [m r s]. cbn [shr_m shr_r shr_s]. intros Hm Heven -> ->.
  destruct m as [|[p | p |]|]; cbn; auto; try lia.
  - rewrite Pos2Z.inj_xI in Heven.
    rewrite Z.add_comm, Z.mul_comm, Z.mod_add in Heven by lia.
    discriminate.
  - discriminate.
Qed.

(** [n] shifts divide the mantissa by [2 ^ n], and lose nothing when the
    mantissa is a multiple of [2 ^ n]. *)
Lemma shr_iter (r : shr_record) (n : positive) :
  0 <= shr_m r ->
  shr_m (iter_pos shr_1 n r) = shr_m r / 2 ^ Z.pos n
  /\ (shr_m r mod 2 ^ Z.pos n = 0 -> shr_r r = false -> shr_s r = false ->
      shr_r (iter_pos shr_1 n r) = false
      /\ shr_s (iter_pos shr_1 n r) = false).
Proof.
  intros Hm. rewrite iter_pos_iter.
  apply (Pos.iter_ind _ shr_1 r
           (fun n a => shr_m a = shr_m r / 2 ^ Z.pos n
                       /\ (shr_m r mod 2 ^ Z.pos n = 0 ->
                           shr_r r = false -> shr_s r = false ->
                           shr_r a = false /\ shr_s a = false))).
  - change (2 ^ 1) with 2. split; [now apply shr_1_m|].
    intros. now apply shr_1_exact.
  - intros p a [IHm IHx].
    assert (Hpow : 2 ^ Z.pos (Pos.succ p) = 2 ^ Z.pos p * 2)
      by (rewrite Pos2Z.inj_succ, Z.pow_succ_r by lia; lia).
    assert (Hpos : 0 < 2 ^ Z.pos p) by (apply Z.pow_pos_nonneg; lia).
    assert (Ha : 0 <= shr_m a) by (rewrite IHm; apply Z.div_pos; lia).
    split.
    + rewrite shr_1_m, IHm, Hpow, Z.div_div by lia. reflexivity.
    + intros Hmod Hr Hs.
      rewrite Hpow in Hmod.
      apply Z.mod_divide in Hmod; [|lia]. destruct Hmod as [k Hk].
      assert (Hlow : shr_m r mod 2 ^ Z.pos p = 0).
      { rewrite Hk. replace (k * (2 ^ Z.pos p * 2)) with (k * 2 * 2 ^ Z.pos p)
          by lia. apply Z.mod_mul. lia. }
      destruct (IHx Hlow Hr Hs) as [Hra Hsa].
      apply shr_1_exact; try assumption.
      rewrite IHm, Hk.
      replace (k * (2 ^ Z.pos p * 2)) with (k * 2 * 2 ^ Z.pos p) by lia.
      rewrite Z.div_mul by lia. apply Z.mod_mul. lia.
Qed.

Lemma loc_of_record_of_loc (m : Z) (l : location) :
  loc_of_shr_record (shr_record_of_loc m l) = l.
Proof. destruct l as [|[]]; reflexivity. Qed.

Lemma shr_m_record_of_loc (m : Z) (l : location) :
  shr_m (shr_record_of_loc m l) = m.
Proof. destruct l as [|[]]; reflexivity. Qed.

(** The shift that brings a mantissa of 53 digits or more back to 53. *)
Lemma shr_fexp_normal (m : positive) (e : Z) (l : location) :
  let n := Z.pos (digits2_pos m) - 53 in
  0 <= n -> -1074 <= e ->
  exists r,
    shr_fexp prec emax (Z.pos m) e l = (r, e + n)
    /\ shr_m r = Z.pos m / 2 ^ n
    /\ (l = loc_Exact -> Z.pos m mod 2 ^ n = 0 ->
        loc_of_shr_record r = loc_Exact).
Proof.
  intros n Hn He. unfold shr_fexp. cbn [Zdigits2].
  assert (Hs : fexp prec emax (Z.pos (digits2_pos m) + e) - e = n)
    by (unfold fexp, SpecFloat.emin, prec, emax; lia).
  rewrite Hs. unfold shr.
  destruct n as [|p|p] eqn:Hp; [| |lia].
  - exists (shr_record_of_loc (Z.pos m) l).
    rewrite Z.add_0_r, shr_m_record_of_loc, Z.div_1_r.
    repeat split. intros -> _. reflexivity.
  - exists (iter_pos shr_1 p (shr_record_of_loc (Z.pos m) l)).
    destruct (shr_iter (shr_record_of_loc (Z.pos m) l) p) as [Hm Hx].
    { rewrite shr_m_record_of_loc. lia. }
    rewrite shr_m_record_of_loc in Hm, Hx.
    repeat split; [exact Hm|].
    intros -> Hmod. destruct (Hx Hmod eq_refl eq_refl) as [Hr Hsx].
    destruct (iter_pos shr_1 p _) as [m' r' s']. cbn in Hr, Hsx.
    subst r' s'. reflexivity.
Qed.

Lemma round_nearest_even_bounds (m : Z) (l : location) :
  m <= round_nearest_even m l <= m + 1
  /\ (l = loc_Exact -> round_nearest_even m l = m).
Proof.
  split; [|intros ->; reflexivity].
  destruct l as [|[]]; cbn [round_nearest_even]; try lia.
  destruct (Z.even m); lia.
Qed.

(** Rounding a mantissa of 53 digits or more, far from the ends of the
    exponent range: the result is normal, it lies between the multiples of
    [2 ^ n] around the mantissa, [n] being the digits in excess, and it is
    the mantissa itself when that is such a multiple. *)
Lemma round_aux_value (mx : positive) (ex : Z) (l : location) :
  let n := Z.pos (digits2_pos mx) - 53 in
  0 <= n -> -1074 <= ex -> ex + n + 1 <= 971 ->
  exists (m : positive) (e : Z),
    binary_round_aux prec emax false (Z.pos mx) ex l = S754_finite false m e
    /\ 2 ^ 52 <= Z.pos m < 2 ^ 53
    /\ ex + n <= e <= ex + n + 1
    /\ Z.pos mx / 2 ^ n * 2 ^ n <= Z.pos m * 2 ^ (e - ex)
       <= (Z.pos mx / 2 ^ n + 1) * 2 ^ n
    /\ (l = loc_Exact -> Z.pos mx mod 2 ^ n = 0 ->
        Z.pos m * 2 ^ (e - ex) = Z.pos mx).
Proof.
  intros n Hn Hex Htop.
  destruct (shr_fexp_normal mx ex l Hn Hex) as [r1 [Hr1 [Hq0 Hexact]]].
  fold n in Hr1, Hq0, Hexact.
  assert (Hpn : 0 < 2 ^ n) by (apply Z.pow_pos_nonneg; lia).
  pose proof (digits2_pos_bounds mx) as Hdig.
  replace (Z.pos (digits2_pos mx)) with (n + 53) in Hdig by (unfold n; lia).
  replace (n + 53 - 1) with (52 + n) in Hdig by lia.
  rewrite !Z.pow_add_r in Hdig by lia.
  set (q0 := Z.pos mx / 2 ^ n) in *.
  assert (Hq : 2 ^ 52 <= q0 < 2 ^ 53).
  { unfold q0. split.
    - apply Z.div_le_lower_bound; lia.
    - apply Z.div_lt_upper_bound; lia. }
  destruct (round_nearest_even_bounds q0 (loc_of_shr_record r1))
    as [HM HMexact].
  set (M := round_nearest_even q0 (loc_of_shr_record r1)) in *.
  change (2 ^ 52) with 4503599627370496 in *.
  change (2 ^ 53) with 9007199254740992 in *.
  destruct M as [|Mp|Mp] eqn:HMp; [lia| |lia].
  pose proof (digits2_pos_bounds Mp) as HdM.
  set (L' := Z.pos (digits2_pos Mp)) in *.
  assert (HL' : 53 <= L' <= 54).
  { split.
    - destruct (Z.le_gt_cases 53 L') as [|Hlt]; [assumption|].
      assert (2 ^ L' <= 2 ^ 52) by (apply Z.pow_le_mono_r; lia).
      change (2 ^ 52) with 4503599627370496 in *. lia.
    - destruct (Z.le_gt_cases L' 54) as [|Hgt]; [assumption|].
      assert (2 ^ 54 <= 2 ^ (L' - 1)) by (apply Z.pow_le_mono_r; lia).
      change (2 ^ 54) with 18014398509481984 in *. lia. }
  destruct (shr_fexp_normal Mp (ex + n) loc_Exact) as [r2 [Hr2 [Hm2 _]]];
    [fold L'; lia | lia |].
  fold L' in Hr2, Hm2.
  unfold binary_round_aux. rewrite Hr1, Hq0. fold q0.
  fold M. rewrite HMp, Hr2, Hm2.
  assert (Hcase : (L' - 53 = 0 /\ Z.pos Mp < 9007199254740992)
                  \/ (L' - 53 = 1 /\ Z.pos Mp = 9007199254740992)).
  { assert (Hc : L' = 53 \/ L' = 54) by lia.
    destruct Hc as [Hc | Hc]; rewrite Hc in HdM; [left | right].
    - change (2 ^ 53) with 9007199254740992 in HdM. lia.
    - change (2 ^ (54 - 1)) with 9007199254740992 in HdM. lia. }
  destruct Hcase as [[Hn' Hlt] | [Hn' Heq]]; rewrite Hn'.
  - rewrite Z.div_1_r, Z.add_0_r.
    destruct (Z.leb_spec (ex + n) (emax - prec)) as [_ | Hbad];
      [| unfold emax, prec in Hbad; lia].
    exists Mp, (ex + n).
    replace (ex + n - ex) with n by lia.
    repeat split; try lia.
    + apply Z.mul_le_mono_nonneg_r; lia.
    + apply Z.mul_le_mono_nonneg_r; lia.
    + intros Hl Hmod. rewrite (HMexact (Hexact Hl Hmod)).
      unfold q0. pose proof (Z.div_mod (Z.pos mx) (2 ^ n)). lia.
  - rewrite Heq. change (9007199254740992 / 2 ^ 1) with 4503599627370496.
    destruct (Z.leb_spec (ex + n + 1) (emax - prec)) as [_ | Hbad];
      [| unfold emax, prec in Hbad; lia].
    exists 4503599627370496%positive, (ex + n + 1).
    replace (ex + n + 1 - ex) with (n + 1) by lia.
    rewrite Z.pow_add_r by lia. change (2 ^ 1) with 2.
    repeat split; try lia.
    + nia.
    + nia.
    + intros Hl Hmod. rewrite (HMexact (Hexact Hl Hmod)) in Heq. lia.
Qed.

Lemma normal_digits (m : positive) : normal m -> Z.pos (digits2_pos m) = 53.
Proof. intros Hm. apply digits2_pos_unique. exact Hm. Qed.

(** [(double)d] for an integer of up to 53 bits is [d] itself, with its
    mantissa shifted up to 53 digits. *)
Lemma of_uint63_normal (d : Z) :
  1 <= d < 2 ^ 53 ->
  exists m : positive,
    Prim2SF (of_uint63 (Uint63.of_Z d))
    = S754_finite false m (Z.log2 d - 52)
    /\ normal m
    /\ Z.pos m = d * 2 ^ (52 - Z.log2 d).
Proof.
  intros Hd. rewrite of_uint63_spec, Uint63.of_Z_spec.
  change (2 ^ 53) with 9007199254740992 in Hd.
  rewrite Z.mod_small
    by (change wB with 9223372036854775808; lia).
  destruct d as [|p|p]; try lia.
  cbn [binary_normalize]. unfold binary_round.
  pose proof (digits2_pos_bounds p) as Hdig.
  pose proof (digits2_pos_log2 p) as Hlog.
  set (L := Z.pos (digits2_pos p)) in *.
  assert (HL : 1 <= L <= 53).
  { split; [unfold L; lia|].
    destruct (Z.le_gt_cases L 53) as [|Hgt]; [assumption|].
    assert (2 ^ 53 <= 2 ^ (L - 1)) by (apply Z.pow_le_mono_r; lia).
    change (2 ^ 53) with 9007199254740992 in *. lia. }
  assert (Hf : fexp prec emax (L + 0) = L - 53)
    by (unfold fexp, SpecFloat.emin, prec, emax; lia).
  rewrite Hf. replace (Z.log2 (Z.pos p)) with (L - 1) by lia.
  replace (L - 1 - 52) with (L - 53) by lia.
  replace (52 - (L - 1)) with (53 - L) by lia.
  assert (Hshl : exists mz,
             shl_align p 0 (L - 53) = (mz, L - 53)
             /\ Z.pos mz = Z.pos p * 2 ^ (53 - L)).
  { unfold shl_align. destruct (L - 53 - 0) as [|s|s] eqn:Hs; [|lia|].
    - exists p. replace (L - 53) with 0 by lia.
      replace (53 - L) with 0 by lia. split; [reflexivity | lia].
    - exists (Pos.iter xO p s). split; [reflexivity|].
      rewrite iter_xO. replace (53 - L) with (Z.pos s) by lia. reflexivity. }
  destruct Hshl as [mz [-> Hmz]].
  assert (Hnz : normal mz).
  { unfold normal. rewrite Hmz.
    assert (E52 : 2 ^ 52 = 2 ^ (L - 1) * 2 ^ (53 - L))
      by (rewrite <- Z.pow_add_r by lia; f_equal; lia).
    assert (E53 : 2 ^ 53 = 2 ^ L * 2 ^ (53 - L))
      by (rewrite <- Z.pow_add_r by lia; f_equal; lia).
    rewrite E52, E53.
    assert (0 < 2 ^ (53 - L)) by (apply Z.pow_pos_nonneg; lia).
    split; [apply Z.mul_le_mono_nonneg_r | apply Z.mul_lt_mono_pos_r]; lia. }
  destruct (round_aux_value mz (L - 53) loc_Exact)
    as [m [e [Hrun [Hm [He [_ Hexact]]]]]];
    rewrite ?(normal_digits mz Hnz); try lia.
  rewrite (normal_digits mz Hnz) in He, Hexact.
  change (53 - 53) with 0 in *. change (2 ^ 0) with 1 in Hexact.
  specialize (Hexact eq_refl (Z.mod_1_r _)).
  unfold normal in Hnz.
  change (2 ^ 52) with 4503599627370496 in *.
  change (2 ^ 53) with 9007199254740992 in *.
  assert (He' : e = L - 53).
  { assert (Hc : e = L - 53 \/ e = L - 53 + 1) by lia.
    destruct Hc as [Hc | Hc]; [exact Hc|].
    rewrite Hc in Hexact.
    replace (L - 53 + 1 - (L - 53)) with 1 in Hexact by lia.
    change (2 ^ 1) with 2 in Hexact. lia. }
  subst e. replace (L - 53 - (L - 53)) with 0 in Hexact by lia.
  change (2 ^ 0) with 1 in Hexact.
  exists m. rewrite Hrun. repeat split; lia.
Qed.

(** The product of two normal numbers, away from the ends of the range. *)
Lemma mul_normal (m1 m2 : positive) (e1 e2 : Z) :
  normal m1 -> normal m2 -> -1074 <= e1 + e2 <= 900 ->
  let n := Z.pos (digits2_pos (m1 * m2)) - 53 in
  52 <= n <= 53
  /\ exists (m : positive) (e : Z),
      SF64mul (S754_finite false m1 e1) (S754_finite false m2 e2)
      = S754_finite false m e
      /\ normal m
      /\ e1 + e2 + n <= e <= e1 + e2 + n + 1
      /\ Z.pos (m1 * m2) / 2 ^ n * 2 ^ n <= Z.pos m * 2 ^ (e - (e1 + e2))
         <= (Z.pos (m1 * m2) / 2 ^ n + 1) * 2 ^ n
      /\ (Z.pos (m1 * m2) mod 2 ^ n = 0 ->
          Z.pos m * 2 ^ (e - (e1 + e2)) = Z.pos (m1 * m2)).
Proof.
  intros H1 H2 He n.
  assert (Hn : 52 <= n <= 53).
  { unfold n.
    assert (Hd : Z.pos (digits2_pos (m1 * m2)) = 105
                 \/ Z.pos (digits2_pos (m1 * m2)) = 106).
    { unfold normal in *.
      change (2 ^ 52) with 4503599627370496 in *.
      change (2 ^ 53) with 9007199254740992 in *.
      destruct (Z.lt_ge_cases (Z.pos (m1 * m2)) (2 ^ 105)) as [Hlt | Hge];
        [left | right]; apply digits2_pos_unique; rewrite Pos2Z.inj_mul;
        rewrite Pos2Z.inj_mul in *.
      - change (2 ^ (105 - 1)) with (4503599627370496 * 4503599627370496).
        split; [nia | exact Hlt].
      - change (2 ^ 106) with (9007199254740992 * 9007199254740992).
        change (106 - 1) with 105. split; [exact Hge | nia]. }
    lia. }
  split; [exact Hn|].
  destruct (round_aux_value (m1 * m2) (e1 + e2) loc_Exact)
    as [m [e [Hrun [Hm [Hee [Hb Hx]]]]]]; fold n; try lia.
  exists m, e.
  split; [exact Hrun|]. split; [exact Hm|]. split; [exact Hee|].
  split; [exact Hb|].
  intros Hmod. apply Hx; [reflexivity | exact Hmod].
Qed.

(** The quotient of two normal numbers, away from the ends of the range:
    the integer quotient of the mantissas, the first scaled by [2 ^ 53],
    rounded to 53 digits. *)
Lemma div_normal (m1 m2 : positive) (e1 e2 : Z) :
  normal m1 -> normal m2 -> -900 <= e1 - e2 <= 900 ->
  let q := Z.pos m1 * 2 ^ 53 / Z.pos m2 in
  let n := Z.log2 q - 52 in
  0 <= n <= 1
  /\ 2 ^ 52 <= q
  /\ exists (m : positive) (e : Z),
      SF64div (S754_finite false m1 e1) (S754_finite false m2 e2)
      = S754_finite false m e
      /\ normal m
      /\ e1 - e2 - 53 + n <= e <= e1 - e2 - 53 + n + 1
      /\ q / 2 ^ n * 2 ^ n <= Z.pos m * 2 ^ (e - (e1 - e2 - 53))
         <= (q / 2 ^ n + 1) * 2 ^ n.
Proof.
  intros H1 H2 He q n.
  assert (Hq : 2 ^ 52 <= q < 2 ^ 54).
  { unfold q, normal in *.
    change (2 ^ 52) with 4503599627370496 in *.
    change (2 ^ 53) with 9007199254740992 in *.
    change (2 ^ 54) with 18014398509481984.
    split.
    - apply Z.div_le_lower_bound; lia.
    - apply Z.div_lt_upper_bound; lia. }
  assert (Hlog : 52 <= Z.log2 q <= 53).
  { split.
    - apply Z.log2_le_pow2; lia.
    - apply Z.lt_succ_r, Z.log2_lt_pow2; lia. }
  split; [unfold n; lia|]. split; [lia|].
  unfold SF64div, SFdiv, SFdiv_core_binary. cbn [Zdigits2 xorb].
  rewrite (normal_digits m1 H1), (normal_digits m2 H2).
  assert (He' : Z.min (fexp prec emax (53 + e1 - (53 + e2))) (e1 - e2)
                = e1 - e2 - 53)
    by (unfold fexp, SpecFloat.emin, prec, emax; lia).
  rewrite He'.
  replace (e1 - e2 - (e1 - e2 - 53)) with 53 by lia.
  cbv iota beta. rewrite Z.shiftl_mul_pow2 by lia.
  destruct (Z.div_eucl (Z.pos m1 * 2 ^ 53) (Z.pos m2)) as [q' r] eqn:Hdiv.
  assert (Hq' : q' = q) by (unfold q, Z.div; rewrite Hdiv; reflexivity).
  subst q'.
  destruct q as [|qp|qp] eqn:Hqp; [lia| |lia].
  assert (Hdq : Z.pos (digits2_pos qp) - 53 = n)
    by (rewrite digits2_pos_log2; unfold n; lia).
  destruct (round_aux_value qp (e1 - e2 - 53)
                            (new_location (Z.pos m2) r))
    as [m [e [Hrun [Hm [Hee [Hb _]]]]]]; rewrite ?Hdq; try lia.
  rewrite Hdq in Hee, Hb.
  exists m, e.
  split; [exact Hrun|]. split; [exact Hm|]. split; [exact Hee | exact Hb].
Qed.

(** One hundred, as binary64. *)
Lemma hundred_normal :
  Prim2SF (of_uint63 (Uint63.of_Z 100))
  = S754_finite false 7036874417766400 (-46).
Proof. vm_compute. reflexivity. Qed.

Lemma compare_cont_Z (a b : positive) :
  Pos.compare_cont Eq a b = (Z.pos a ?= Z.pos b).
Proof. reflexivity. Qed.

(** The order on positive numbers, when the second has exponent [e2]. *)
Lemma ltb_finite (m1 m2 : positive) (e1 e2 : Z) :
  SFltb (S754_finite false m1 e1) (S754_finite false m2 e2)
  = (e1 <? e2) || ((e1 =? e2) && (Z.pos m1 <? Z.pos m2)).
Proof.
  unfold SFltb, SFcompare. rewrite compare_cont_Z.
  destruct (Z.compare_spec e1 e2) as [He | He | He].
  - subst e1. rewrite Z.ltb_irrefl, Z.eqb_refl. cbn [orb andb].
    unfold Z.ltb. destruct (Z.pos m1 ?= Z.pos m2); reflexivity.
  - destruct (Z.ltb_spec e1 e2); [reflexivity | lia].
  - destruct (Z.ltb_spec e1 e2); [lia|].
    destruct (Z.eqb_spec e1 e2); [lia | reflexivity].
Qed.

(** *** The arithmetic of the loop test

    [N] is the divisor times the power of ten and [f] the frequency.  The
    product has the mantissa [m1] and the exponent [b1 - a], the quotient
    the mantissa [m2] and the exponent [e2]; [n1] and [n2] are the digits
    dropped by the two roundings. *)

Section Test.

Variables N f a c n1 b1 n2 b2 m1 m2 e2 : Z.

Hypothesis HN : 1 <= N.
Hypothesis Hf : 1 <= f < 2 ^ 32.
Hypothesis Ha : 0 <= a.
Hypothesis Hc : 0 <= c.
Hypothesis Hn1 : 52 <= n1 <= 53.
Hypothesis Hdig : 2 ^ (n1 + 52) <= N * 2 ^ a.
Hypothesis Hm1 : 2 ^ 52 <= m1 < 2 ^ 53.
Hypothesis Hb1 : n1 <= b1 <= n1 + 1.
Hypothesis Hmul : N * 2 ^ a / 2 ^ n1 * 2 ^ n1 <= m1 * 2 ^ b1.
Hypothesis Hexact : (N * 2 ^ a) mod 2 ^ n1 = 0 -> m1 * 2 ^ b1 = N * 2 ^ a.
Hypothesis HF : 2 ^ 52 <= f * 2 ^ c < 2 ^ 53.
Hypothesis Hn2 : 0 <= n2 <= 1.
Hypothesis Hb2 : n2 <= b2 <= n2 + 1.
Hypothesis Hm2 : 2 ^ 52 <= m2 < 2 ^ 53.
Hypothesis Hdiv :
  m1 * 2 ^ 53 / (f * 2 ^ c) / 2 ^ n2 * 2 ^ n2 <= m2 * 2 ^ b2
  <= (m1 * 2 ^ 53 / (f * 2 ^ c) / 2 ^ n2 + 1) * 2 ^ n2.
Hypothesis He2 : e2 = b2 + b1 - a + c - 53.

Let A := 2 ^ a.
Let Cc := 2 ^ c.
Let B1 := 2 ^ b1.
Let B2 := 2 ^ b2.
Let q := m1 * 2 ^ 53 / (f * 2 ^ c).

Lemma test_powers : 0 < A /\ 0 < Cc /\ 0 < B1 /\ 0 < B2 /\ 0 < 2 ^ n1
                    /\ 0 < 2 ^ n2 /\ 2 ^ n2 <= B2.
Proof.
  unfold A, Cc, B1, B2.
  repeat split; try (apply Z.pow_pos_nonneg; lia).
  apply Z.pow_le_mono_r; lia.
Qed.

(** A scaled period below 100 is computed below 100. *)
Lemma test_true :
  N < 100 * f -> e2 < -46 \/ (e2 = -46 /\ m2 < 7036874417766400).
Proof.
  intros Hlt.
  destruct test_powers as [HA [HCc [HB1 [HB2 [Hp1 [Hp2 Hn2b]]]]]].
  change (2 ^ 32) with 4294967296 in Hf.
  (* the product is exact *)
  assert (Han : n1 + 14 <= a).
  { assert (Hpow : 2 ^ (n1 + 52) < 2 ^ (39 + a)).
    { rewrite (Z.pow_add_r 2 39 a) by lia. change (2 ^ 39) with 549755813888.
      fold A. apply Z.le_lt_trans with (N * A); [exact Hdig|].
      apply Z.mul_lt_mono_pos_r; lia. }
    apply Z.pow_lt_mono_r_iff in Hpow; lia. }
  assert (HW : m1 * B1 = N * A).
  { apply Hexact. unfold A.
    replace a with (a - n1 + n1) by lia.
    rewrite Z.pow_add_r, Z.mul_assoc by lia. apply Z.mod_mul. lia. }
  destruct (Z.lt_ge_cases e2 (-46)) as [Hlow | Hge]; [left; exact Hlow|].
  right.
  set (g := e2 + 46).
  assert (Hg : 0 <= g) by (unfold g; lia).
  assert (HG : 0 < 2 ^ g) by (apply Z.pow_pos_nonneg; lia).
  (* the chain of bounds *)
  assert (HmF : 0 < f * Cc)
    by (unfold Cc; change (2 ^ 52) with 4503599627370496 in HF; lia).
  assert (Hq1 : q * (f * Cc) <= m1 * 2 ^ 53).
  { unfold q, Cc. rewrite Z.mul_comm. apply Z.mul_div_le. exact HmF. }
  assert (Hq2 : m2 * B2 <= q + B2).
  { destruct Hdiv as [_ Hup]. fold q in Hup. fold B2 in Hup.
    pose proof (Z.mul_div_le q (2 ^ n2) Hp2). lia. }
  assert (Hq0 : 0 <= q).
  { unfold q. apply Z.div_pos; [|exact HmF].
    change (2 ^ 52) with 4503599627370496 in Hm1. lia. }
  assert (Hpow : B2 * Cc * B1 = 2 ^ g * A * 128).
  { unfold B2, Cc, B1, A. change 128 with (2 ^ 7).
    rewrite <- !Z.pow_add_r by lia. f_equal. unfold g. lia. }
  assert (Hchain : (m2 - 1) * f * (2 ^ g * 128) * A <= N * 2 ^ 53 * A).
  { assert (H1 : (m2 - 1) * B2 <= q) by lia.
    assert (H2 : (m2 - 1) * B2 * (f * Cc) <= m1 * 2 ^ 53).
    { apply Z.le_trans with (q * (f * Cc)); [|exact Hq1].
      apply Z.mul_le_mono_nonneg_r; lia. }
    assert (H3 : (m2 - 1) * B2 * (f * Cc) * B1 <= m1 * 2 ^ 53 * B1)
      by (apply Z.mul_le_mono_nonneg_r; lia).
    replace ((m2 - 1) * B2 * (f * Cc) * B1)
      with ((m2 - 1) * f * (B2 * Cc * B1)) in H3 by ring.
    replace (m1 * 2 ^ 53 * B1) with (m1 * B1 * 2 ^ 53) in H3 by ring.
    rewrite Hpow, HW in H3.
    replace ((m2 - 1) * f * (2 ^ g * 128) * A)
      with ((m2 - 1) * f * (2 ^ g * A * 128)) by ring.
    replace (N * 2 ^ 53 * A) with (N * A * 2 ^ 53) by ring.
    exact H3. }
  apply Z.mul_le_mono_pos_r in Hchain; [|exact HA].
  change (2 ^ 53) with 9007199254740992 in *.
  change (2 ^ 52) with 4503599627370496 in *.
  assert (Hg0 : g = 0).
  { destruct (Z.eq_dec g 0) as [|Hne]; [assumption|].
    assert (HG2 : 2 ^ 1 <= 2 ^ g) by (apply Z.pow_le_mono_r; lia).
    change (2 ^ 1) with 2 in HG2.
    assert (Hlow : 4503599627370495 * f * (2 * 128)
                   <= (m2 - 1) * f * (2 ^ g * 128)).
    { apply Z.mul_le_mono_nonneg; try lia.
      apply Z.mul_le_mono_nonneg_r; lia. }
    lia. }
  rewrite Hg0 in Hchain. change (2 ^ 0) with 1 in Hchain.
  split; [unfold g in Hg0; lia|].
  destruct (Z.lt_ge_cases m2 7036874417766400) as [|Hbig]; [assumption|].
  assert (Hlow : 7036874417766399 * f <= (m2 - 1) * f)
    by (apply Z.mul_le_mono_nonneg_r; lia).
  lia.
Qed.

(** A scaled period of 100 or more is computed as 100 or more. *)
Lemma test_false :
  100 * f <= N -> -46 <= e2 /\ (e2 = -46 -> 7036874417766400 <= m2).
Proof.
  intros Hge.
  destruct test_powers as [HA [HCc [HB1 [HB2 [Hp1 [Hp2 Hn2b]]]]]].
  change (2 ^ 32) with 4294967296 in Hf.
  assert (HmF : 0 < f * Cc)
    by (unfold Cc; change (2 ^ 52) with 4503599627370496 in HF; lia).
  (* the product is no less than [100 * f] *)
  assert (HW : 100 * f * A <= m1 * B1).
  { destruct (Z.eq_dec ((N * 2 ^ a) mod 2 ^ n1) 0) as [Hmod | Hmod].
    - unfold B1. rewrite (Hexact Hmod). fold A.
      apply Z.mul_le_mono_nonneg_r; lia.
    - assert (Han : a < n1).
      { destruct (Z.lt_ge_cases a n1) as [|Hle]; [assumption|].
        exfalso. apply Hmod.
        replace a with (a - n1 + n1) by lia.
        rewrite Z.pow_add_r, Z.mul_assoc by lia. apply Z.mod_mul. lia. }
      assert (Hfl : 2 ^ 52 <= N * 2 ^ a / 2 ^ n1).
      { apply Z.div_le_lower_bound; [exact Hp1|].
        rewrite <- Z.pow_add_r by lia. exact Hdig. }
      assert (Hbig : 2 ^ 53 * A <= 2 ^ 52 * 2 ^ n1).
      { unfold A. rewrite <- !Z.pow_add_r by lia.
        apply Z.pow_le_mono_r; lia. }
      change (2 ^ 53) with 9007199254740992 in *.
      change (2 ^ 52) with 4503599627370496 in *.
      fold B1 in Hmul.
      assert (H1 : 100 * f * A <= 9007199254740992 * A)
        by (apply Z.mul_le_mono_nonneg_r; lia).
      assert (H2 : 4503599627370496 * 2 ^ n1
                   <= N * 2 ^ a / 2 ^ n1 * 2 ^ n1)
        by (apply Z.mul_le_mono_nonneg_r; lia).
      lia. }
  destruct (Z.lt_ge_cases (-46) e2) as [Hhigh | Hle]; [split; lia|].
  set (h := -46 - e2).
  assert (Hh : 0 <= h) by (unfold h; lia).
  assert (HH : 0 < 2 ^ h) by (apply Z.pow_pos_nonneg; lia).
  assert (Hpow : B1 * (B2 * Cc * 2 ^ h) = A * 128).
  { unfold B2, Cc, B1, A. change 128 with (2 ^ 7).
    rewrite <- !Z.pow_add_r by lia. f_equal. unfold h. lia. }
  assert (H1 : 100 * f * (B2 * Cc * 2 ^ h) <= m1 * 128).
  { assert (H0 : 100 * f * A * (B2 * Cc * 2 ^ h)
                 <= m1 * B1 * (B2 * Cc * 2 ^ h)).
    { apply Z.mul_le_mono_nonneg_r; [|exact HW].
      apply Z.mul_nonneg_nonneg; [apply Z.mul_nonneg_nonneg|]; lia. }
    replace (m1 * B1 * (B2 * Cc * 2 ^ h))
      with (m1 * (B1 * (B2 * Cc * 2 ^ h))) in H0 by ring.
    rewrite Hpow in H0.
    replace (100 * f * A * (B2 * Cc * 2 ^ h))
      with (100 * f * (B2 * Cc * 2 ^ h) * A) in H0 by ring.
    replace (m1 * (A * 128)) with (m1 * 128 * A) in H0 by ring.
    apply Z.mul_le_mono_pos_r in H0; assumption. }
  assert (Hq : 7036874417766400 * (B2 * 2 ^ h) <= q).
  { unfold q. fold Cc. apply Z.div_le_lower_bound; [exact HmF|].
    change (2 ^ 53) with 9007199254740992. lia. }
  assert (Hq2 : 7036874417766400 * (B2 * 2 ^ h) <= q / 2 ^ n2 * 2 ^ n2).
  { assert (HB2s : B2 = 2 ^ (b2 - n2) * 2 ^ n2)
      by (unfold B2; rewrite <- Z.pow_add_r by lia; f_equal; lia).
    assert (Hk : 7036874417766400 * (2 ^ (b2 - n2) * 2 ^ h) <= q / 2 ^ n2).
    { apply Z.div_le_lower_bound; [exact Hp2|].
      rewrite HB2s in Hq.
      replace (2 ^ n2 * (7036874417766400 * (2 ^ (b2 - n2) * 2 ^ h)))
        with (7036874417766400 * (2 ^ (b2 - n2) * 2 ^ n2 * 2 ^ h)) by ring.
      exact Hq. }
    apply (Z.mul_le_mono_nonneg_r _ _ (2 ^ n2)) in Hk; [|lia].
    rewrite HB2s at 1.
    replace (7036874417766400 * (2 ^ (b2 - n2) * 2 ^ n2 * 2 ^ h))
      with (7036874417766400 * (2 ^ (b2 - n2) * 2 ^ h) * 2 ^ n2) by ring.
    exact Hk. }
  assert (Hm : 7036874417766400 * 2 ^ h <= m2).
  { destruct Hdiv as [Hlo _]. fold q in Hlo. fold B2 in Hlo.
    assert (H2 : 7036874417766400 * 2 ^ h * B2 <= m2 * B2).
    { replace (7036874417766400 * 2 ^ h * B2)
        with (7036874417766400 * (B2 * 2 ^ h)) by ring. lia. }
    apply Z.mul_le_mono_pos_r in H2; assumption. }
  assert (Hh0 : h = 0).
  { destruct (Z.eq_dec h 0) as [|Hne]; [assumption|].
    assert (2 ^ 1 <= 2 ^ h) by (apply Z.pow_le_mono_r; lia).
    change (2 ^ 1) with 2 in *.
    change (2 ^ 53) with 9007199254740992 in *. lia. }
  rewrite Hh0 in Hm. change (2 ^ 0) with 1 in Hm.
  unfold h in Hh0. split; lia.
Qed.

End Test.

Lemma log2_range (x k : Z) : 1 <= x < 2 ^ k -> 0 <= Z.log2 x < k.
Proof.
  intros Hx. split; [apply Z.log2_nonneg|].
  apply Z.log2_lt_pow2; lia.
Qed.

(** The test of the loop, computed in binary64, is the comparison of the
    integers: neither rounding, of the product and of the quotient, moves
    the scaled period across 100. *)
Lemma binary64_test (d t f : Z) :
  1 <= d < 2 ^ 32 -> 1 <= t <= 10 ^ 12 -> 1 <= f < 2 ^ 32 ->
  PrimFloat.ltb
    (PrimFloat.div
       (PrimFloat.mul (of_uint63 (Uint63.of_Z d)) (of_uint63 (Uint63.of_Z t)))
       (of_uint63 (Uint63.of_Z f)))
    (of_uint63 (Uint63.of_Z 100))
  = (d * t <? 100 * f).
Proof.
  intros Hd Ht Hf.
  change (10 ^ 12) with 1000000000000 in Ht.
  destruct (of_uint63_normal d) as [mD [HD [HnD HvD]]];
    [change (2 ^ 32) with 4294967296 in Hd;
     change (2 ^ 53) with 9007199254740992; lia|].
  destruct (of_uint63_normal t) as [mT [HT [HnT HvT]]];
    [change (2 ^ 53) with 9007199254740992; lia|].
  destruct (of_uint63_normal f) as [mF [HF [HnF HvF]]];
    [change (2 ^ 32) with 4294967296 in Hf;
     change (2 ^ 53) with 9007199254740992; lia|].
  pose proof (log2_range d 32 Hd) as Hld.
  assert (Hlt : 0 <= Z.log2 t < 40)
    by (apply log2_range; change (2 ^ 40) with 1099511627776; lia).
  pose proof (log2_range f 32 Hf) as Hlf.
  set (ld := Z.log2 d) in *. set (lt := Z.log2 t) in *.
  set (lf := Z.log2 f) in *.
  rewrite ltb_spec, div_spec, mul_spec, HD, HT, HF, hundred_normal.
  destruct (mul_normal mD mT (ld - 52) (lt - 52) HnD HnT ltac:(lia))
    as [Hn1 [m1 [e1 [Hmul [Hm1 [He1 [Hb1 Hx1]]]]]]].
  pose proof (digits2_pos_bounds (mD * mT)) as Hdig.
  set (n1 := Z.pos (digits2_pos (mD * mT)) - 53) in *.
  rewrite Hmul.
  destruct (div_normal m1 mF e1 (lf - 52) Hm1 HnF ltac:(lia))
    as [Hn2 [Hq [m2 [e2 [Hdiv [Hm2 [He2 Hb2]]]]]]].
  rewrite Hdiv, ltb_finite.
  (* the mantissas, as integers *)
  assert (Hmx : Z.pos (mD * mT) = d * t * 2 ^ (104 - ld - lt)).
  { rewrite Pos2Z.inj_mul, HvD, HvT.
    replace (104 - ld - lt) with (52 - ld + (52 - lt)) by lia.
    rewrite Z.pow_add_r by lia. ring. }
  rewrite Hmx in Hb1, Hx1, Hdig. rewrite HvF in Hb2, Hn2, He2.
  set (q := Z.pos m1 * 2 ^ 53 / (f * 2 ^ (52 - lf))) in *.
  set (n2 := Z.log2 q - 52) in *.
  assert (Hdig' : 2 ^ (n1 + 52) <= d * t * 2 ^ (104 - ld - lt)).
  { replace (n1 + 52) with (Z.pos (digits2_pos (mD * mT)) - 1)
      by (unfold n1; lia). apply Hdig. }
  assert (HN : 1 <= d * t)
    by (apply Z.le_trans with (1 * 1);
        [lia | apply Z.mul_le_mono_nonneg; lia]).
  assert (HnF' : 2 ^ 52 <= f * 2 ^ (52 - lf) < 2 ^ 53)
    by (rewrite <- HvF; exact HnF).
  assert (Hb1' : n1 <= e1 - (ld - 52 + (lt - 52)) <= n1 + 1) by lia.
  assert (Hb2' : n2 <= e2 - (e1 - (lf - 52) - 53) <= n2 + 1) by lia.
  assert (He : e2 = e2 - (e1 - (lf - 52) - 53)
                    + (e1 - (ld - 52 + (lt - 52)))
                    - (104 - ld - lt) + (52 - lf) - 53) by lia.
  destruct (Z.ltb_spec (d * t) (100 * f)) as [Hshort | Hlong].
  - destruct (test_true (d * t) f (104 - ld - lt) (52 - lf) n1
                (e1 - (ld - 52 + (lt - 52))) n2
                (e2 - (e1 - (lf - 52) - 53)) (Z.pos m1) (Z.pos m2) e2)
      as [Hlow | [Heq Hlow]]; try assumption; lia.
  - destruct (test_false (d * t) f (104 - ld - lt) (52 - lf) n1
                (e1 - (ld - 52 + (lt - 52))) n2
                (e2 - (e1 - (lf - 52) - 53)) (Z.pos m1) (Z.pos m2) e2)
      as [Hhigh Hbig]; try assumption; lia.
Qed.

(** *** The loop and the time scale *)

(** Up to twelve steps [time_scale] is the power of ten itself. *)
Lemma binary64_times_ten (k : Z) :
  0 <= k < 12 ->
  dmul (R := float) (of_unsigned (10 ^ k)) (of_unsigned 10)
  = of_unsigned (10 ^ (k + 1)).
Proof.
  intros Hk.
  assert (Hc : k = 0 \/ k = 1 \/ k = 2 \/ k = 3 \/ k = 4 \/ k = 5 \/ k = 6
               \/ k = 7 \/ k = 8 \/ k = 9 \/ k = 10 \/ k = 11) by lia.
  repeat (destruct Hc as [-> | Hc]; [vm_compute; reflexivity|]).
  subst k. vm_compute. reflexivity.
Qed.

Lemma binary64_loop_test (d f k : Z) :
  1 <= d < 2 ^ 32 -> 1 <= f < 2 ^ 32 -> 0 <= k <= 12 ->
  dltb (R := float)
       (ddiv (dmul (of_unsigned d) (of_unsigned (10 ^ k))) (of_unsigned f))
       (of_unsigned 100)
  = (d * 10 ^ k <? 100 * f).
Proof.
  intros Hd Hf Hk. apply binary64_test; try assumption.
  split.
  - assert (0 < 10 ^ k) by (apply Z.pow_pos_nonneg; lia). lia.
  - apply Z.pow_le_mono_r; lia.
Qed.

(** The loop stops at the first [n] from [k] on with
    [100 * f <= d * 10 ^ n], when there is one up to 12 and within reach of
    the fuel. *)
Lemma scale_loop_binary64 (d f : Z) (fuel : nat) :
  1 <= d < 2 ^ 32 -> 1 <= f < 2 ^ 32 ->
  forall k m,
    0 <= k <= m -> m <= 12 -> m < k + Z.of_nat fuel ->
    100 * f <= d * 10 ^ m ->
    (forall j, 0 <= j < k -> d * 10 ^ j < 100 * f) ->
    exists n,
      scale_loop (R := float) fuel (of_unsigned d) (of_unsigned f)
                 (of_unsigned (10 ^ k)) k
      = Some (of_unsigned (10 ^ n), n)
      /\ k <= n <= m
      /\ 100 * f <= d * 10 ^ n
      /\ (forall j, 0 <= j < n -> d * 10 ^ j < 100 * f).
Proof.
  intros Hd Hf.
  induction fuel as [|fuel IH]; intros k m Hkm Hm Hreach Hstop Hbelow.
  - lia.
  - cbn [scale_loop]. rewrite binary64_loop_test by (assumption || lia).
    destruct (Z.ltb_spec (d * 10 ^ k) (100 * f)) as [Hshort | Hlong].
    + assert (Hk : k <> m) by (intros ->; lia).
      rewrite binary64_times_ten by lia.
      replace (u32 (k + 1)) with (k + 1)
        by (symmetry; apply Z.mod_small;
            change (2 ^ 32) with 4294967296; lia).
      destruct (IH (k + 1) m) as [n [Hrun [Hn [Hn' Hmin]]]]; try lia.
      * intros j Hj. destruct (Z.eq_dec j k) as [-> | Hjk]; [exact Hshort|].
        apply Hbelow. lia.
      * exists n. split; [exact Hrun|]. split; [lia|].
        split; [exact Hn' | exact Hmin].
    + exists k. split; [reflexivity|]. split; [lia|].
      split; [exact Hlong | exact Hbelow].
Qed.

(** C5, as amended.  For a 32-bit divisor and frequency, both at least 1,
    and in binary64, the arithmetic of the program: the loop applies the
    least number [n] of steps with [100 <= period * 10 ^ n], which is at
    most 12, and leaves [time_scale] at [10 ^ n]; [infer_timescale] hands on
    the period so scaled, which it computes as 100 or more, with the
    multiplier [tens[n mod 3]], one of 1, 10 and 100, and the unit
    [units[n / 3]]; when a step was applied the scaled period is below
    1000.  For divisor 11 at 100 MHz nine steps give the scaled period 110,
    the multiplier 1 and the unit ns: the time scale is rendered as 1ns. *)
Theorem timescale_inference (c : cfg) (w : world) :
  1 <= clk_divisor c < 2 ^ 32 ->
  1 <= clk_freq_hz c < 2 ^ 32 ->
  (exists n,
      0 <= n <= 12
      /\ 100 * clk_freq_hz c <= clk_divisor c * 10 ^ n
      /\ (forall j, 0 <= j < n ->
                    clk_divisor c * 10 ^ j < 100 * clk_freq_hz c)
      /\ (1 <= n -> clk_divisor c * 10 ^ n < 1000 * clk_freq_hz c)
      /\ scale_loop (R := float) scale_fuel (of_unsigned (clk_divisor c))
                    (of_unsigned (clk_freq_hz c)) (of_unsigned 1) 0
         = Some (of_unsigned (10 ^ n), n)
      /\ infer_timescale (R := float) c w
         = (Ok (ddiv (dmul (of_unsigned (clk_divisor c))
                           (of_unsigned (10 ^ n)))
                     (of_unsigned (clk_freq_hz c)),
                nth (Z.to_nat (n mod 3)) tens 0,
                nth (Z.to_nat (n / 3)) units EmptyString),
            w)
      /\ dltb (R := float)
              (ddiv (dmul (of_unsigned (clk_divisor c))
                          (of_unsigned (10 ^ n)))
                    (of_unsigned (clk_freq_hz c)))
              (of_unsigned 100)
         = false
      /\ In (nth (Z.to_nat (n mod 3)) tens 0) [1; 10; 100]
      /\ In (nth (Z.to_nat (n / 3)) units EmptyString)
            ["s"; "ms"; "us"; "ns"; "ps"; "fs"]%string)
  /\ scale_loop (R := float) scale_fuel (of_unsigned 11)
                (of_unsigned 100000000) (of_unsigned 1) 0
     = Some (of_unsigned 1000000000, 9)
  /\ infer_timescale (R := float) cfg_11_at_100MHz w
     = (Ok (of_unsigned 110, 1, "ns"%string), w).
Proof.
  intros Hd Hf. split.
  - destruct (scale_loop_binary64 (clk_divisor c) (clk_freq_hz c) scale_fuel
                Hd Hf 0 12)
      as [n [Hrun [Hn [Hstop Hmin]]]].
    + lia.
    + lia.
    + unfold scale_fuel. lia.
    + apply twelve_tens_suffice; lia.
    + intros j Hj. lia.
    + exists n.
      assert (H3 : 0 <= n / 3 <= 4)
        by (split; [apply Z.div_pos | apply Z.div_le_upper_bound]; lia).
      assert (Hm3 : 0 <= n mod 3 < 3) by (apply Z.mod_pos_bound; lia).
      split; [lia|]. split; [exact Hstop|]. split; [exact Hmin|]. split.
      { intros Hn1. specialize (Hmin (n - 1) ltac:(lia)).
        replace (10 ^ n) with (10 ^ (n - 1) * 10).
        - lia.
        - replace n with ((n - 1) + 1) at 2 by lia.
          rewrite Z.pow_add_r by lia. reflexivity. }
      split; [exact Hrun|]. split.
      { unfold infer_timescale.
        change (of_unsigned (R := float) 1)
          with (of_unsigned (R := float) (10 ^ 0)).
        rewrite Hrun.
        destruct (Z.ltb_spec (n / 3) 6); [reflexivity | lia]. }
      split.
      { rewrite binary64_loop_test by (assumption || lia).
        apply Z.ltb_ge. exact Hstop. }
      split.
      { assert (Hc : n mod 3 = 0 \/ n mod 3 = 1 \/ n mod 3 = 2) by lia.
        destruct Hc as [-> | [-> | ->]]; cbn; auto. }
      { assert (Hc : n / 3 = 0 \/ n / 3 = 1 \/ n / 3 = 2 \/ n / 3 = 3
                     \/ n / 3 = 4) by lia.
        destruct Hc as [-> | [-> | [-> | [-> | ->]]]]; cbn; auto 10. }
  - split; vm_compute; reflexivity.
Qed.

Lemma timescale_inference_witness :
  1 <= clk_divisor cfg_11_at_100MHz < 2 ^ 32
  /\ 1 <= clk_freq_hz cfg_11_at_100MHz < 2 ^ 32
  /\ exists n,
      0 <= n <= 12
      /\ 100 * clk_freq_hz cfg_11_at_100MHz
         <= clk_divisor cfg_11_at_100MHz * 10 ^ n
      /\ (forall j, 0 <= j < n ->
                    clk_divisor cfg_11_at_100MHz * 10 ^ j
                    < 100 * clk_freq_hz cfg_11_at_100MHz)
      /\ (1 <= n ->
          clk_divisor cfg_11_at_100MHz * 10 ^ n
          < 1000 * clk_freq_hz cfg_11_at_100MHz)
      /\ scale_loop (R := float) scale_fuel
                    (of_unsigned (clk_divisor cfg_11_at_100MHz))
                    (of_unsigned (clk_freq_hz cfg_11_at_100MHz))
                    (of_unsigned 1) 0
         = Some (of_unsigned (10 ^ n), n)
      /\ infer_timescale (R := float) cfg_11_at_100MHz (boot [])
         = (Ok (ddiv (dmul (of_unsigned (clk_divisor cfg_11_at_100MHz))
                           (of_unsigned (10 ^ n)))
                     (of_unsigned (clk_freq_hz cfg_11_at_100MHz)),
                nth (Z.to_nat (n mod 3)) tens 0,
                nth (Z.to_nat (n / 3)) units EmptyString),
            boot [])
      /\ dltb (R := float)
              (ddiv (dmul (of_unsigned (clk_divisor cfg_11_at_100MHz))
                          (of_unsigned (10 ^ n)))
                    (of_unsigned (clk_freq_hz cfg_11_at_100MHz)))
              (of_unsigned 100)
         = false
      /\ In (nth (Z.to_nat (n mod 3)) tens 0) [1; 10; 100]
      /\ In (nth (Z.to_nat (n / 3)) units EmptyString)
            ["s"; "ms"; "us"; "ns"; "ps"; "fs"]%string.
Proof.
  assert (Hd : 1 <= clk_divisor cfg_11_at_100MHz < 2 ^ 32) by (cbn; lia).
  assert (Hf : 1 <= clk_freq_hz cfg_11_at_100MHz < 2 ^ 32) by (cbn; lia).
  split; [exact Hd | split; [exact Hf |]].
  exact (proj1 (timescale_inference cfg_11_at_100MHz (boot []) Hd Hf)).
Defined.

(** C5, as stated, fails on its own example: divisor 11 at 100 MHz is
    rendered with the multiplier 1, not 100. *)
Lemma timescale_of_11_at_100MHz_is_1ns :
  fst (infer_timescale (R := float) cfg_11_at_100MHz (boot []))
  = Ok (of_unsigned 110, 1, "ns"%string)
  /\ forall period,
      fst (infer_timescale (R := float) cfg_11_at_100MHz (boot []))
      <> Ok (period, 100, "ns"%string).
Proof.
  split; vm_compute; [reflexivity | intros period Heq; inversion Heq].
Qed.

(** ** Every dump reads below the buffer *)

Ltac dump_step :=
  first
    [ io_step
    | match goal with
      | |- only_undefined Undefined => reflexivity
      end ].

Lemma fwrite_stops_undefined (todo : nat) (m : memory) (p : Z) :
  behaves anything only_undefined anything (fwrite todo m p).
Proof.
  revert p; induction todo; intros p; cbn [fwrite]; repeat dump_step.
  apply IHtodo.
Qed.

Lemma hex_sample_stops_undefined (todo : nat) (m : memory) (c : cfg)
      (ptr j : Z) :
  behaves anything only_undefined anything (hex_sample todo m c ptr j).
Proof.
  revert j; induction todo; intros j; cbn [hex_sample]; repeat dump_step.
  apply IHtodo.
Qed.

Lemma load_below (bytes : list Z) (a : Z) (w : world) :
  a < 0 -> load (block bytes) a w = (Stop Undefined, w).
Proof.
  intros Ha. unfold load, block. destruct (Z.ltb_spec a 0); [reflexivity | lia].
Qed.

Section Overrun.

Variable bytes : list Z.
Variable c : cfg.
Hypothesis groups : 1 <= num_groups_enabled c < 2 ^ 32.

(** One round of the loop of [capture]. *)
Let round (ptr : Z) : io Z :=
  if raw c then
    fwrite (Z.to_nat (num_groups_enabled c)) (block bytes)
           (ptr - num_groups_enabled c) ;;;
    ret (ptr - num_groups_enabled c)
  else
    hex_sample (Z.to_nat (num_groups_enabled c)) (block bytes) c ptr 0 ;;;
    print nl ;;;
    ret ptr.

Lemma round_outcome (ptr : Z) (w : world) :
  match fst (round ptr w) with
  | Ok ptr' => ptr' <= ptr /\ num_groups_enabled c <= ptr
  | Stop s => s = Undefined
  end.
Proof.
  destruct (Z.to_nat (num_groups_enabled c)) as [|g'] eqn:Hg; [lia|].
  assert (Hu : u32 (num_groups_enabled c - 0) = num_groups_enabled c)
    by (rewrite Z.sub_0_r; apply Z.mod_small; lia).
  destruct (Z.lt_ge_cases (ptr - num_groups_enabled c) 0) as [Hlow | Hok].
  - unfold round. destruct (raw c).
    + cbn [fwrite]. unfold bind at 1 2. now rewrite load_below.
    + cbn [hex_sample]. rewrite Hu. unfold bind at 1 2.
      now rewrite load_below.
  - assert (Hb : behaves anything only_undefined
                         (fun ptr' => ptr' <= ptr) (round ptr)).
    { unfold round. destruct (raw c); repeat dump_step;
        first [ apply fwrite_stops_undefined
              | apply hex_sample_stops_undefined
              | lia ]. }
    destruct (Hb w) as [_ Hres]. destruct (fst (round ptr w)).
    + split; [exact Hres | lia].
    + exact Hres.
Qed.

(** Whatever the buffer holds, a dump of one sample or more ends in a read
    below it: in hex as in raw, the last round starts before address 0. *)
Lemma dump_samples_reads_below_buffer (todo : nat) (ptr : Z) (w : world) :
  (0 < todo)%nat ->
  ptr <= Z.of_nat todo * num_groups_enabled c - 1 ->
  fst (dump_samples todo (block bytes) c ptr w) = Stop Undefined.
Proof.
  revert ptr w; induction todo as [|todo IH]; intros ptr w Htodo Hptr; [lia|].
  cbn [dump_samples]. fold (round ptr). unfold bind.
  pose proof (round_outcome ptr w) as Hround.
  destruct (round ptr w) as [[ptr' | s] w']; cbn [fst] in *.
  - destruct Hround as [Hle Hg].
    destruct todo as [|todo]; [lia|].
    apply IH; [lia|]. nia.
  - now subst s.
Qed.

End Overrun.

(** ** The change test of [write_vcd] *)

Section Changes.

Context {R : Type} `{Double R}.

(** X22.  Before the last sample, a sample that changes no bit of any value
    prints nothing, not even a time stamp. *)
Lemma vcd_changes_silent (todo : nat) (c : cfg) (period : R)
      (num_samples i cur changed vali : Z) (written_time : bool) (w : world) :
  i <> u32 (num_samples - 1) ->
  (forall vv, In vv (vcd_values c) -> Z.land changed (mask vv) = 0) ->
  vcd_changes todo c period num_samples i cur changed vali written_time w
  = (Ok tt, w).
Proof.
  intros Hi Hquiet. revert vali written_time.
  induction todo as [|todo IH]; intros vali written_time; cbn [vcd_changes].
  - reflexivity.
  - destruct (Z.eqb_spec i (u32 (num_samples - 1))); [contradiction|].
    assert (Hv : Z.land changed (mask (value_at c vali)) = 0).
    { unfold value_at.
      destruct (nth_in_or_default (Z.to_nat vali) (vcd_values c) no_value)
        as [Hin | ->].
      - now apply Hquiet.
      - apply Z.land_0_r. }
    rewrite Hv. cbn [Z.eqb negb orb]. apply IH.
Qed.

(** A value whose bits changed, or any value at the last sample, gets its
    state line, after the time stamp if it is the first of the sample. *)
Lemma vcd_changes_emits (todo : nat) (c : cfg) (period : R)
      (num_samples i cur changed vali : Z) (written_time : bool) :
  i = u32 (num_samples - 1)
  \/ Z.land changed (mask (value_at c vali)) <> 0 ->
  vcd_changes (S todo) c period num_samples i cur changed vali written_time
  = ((if negb written_time then
        current_time <-
          defined (to_unsigned (dmul (of_unsigned i) period)) ;;
        print ("#" ++ fmt_u current_time ++ nl)
      else ret tt) ;;;
     write_vcd_value c vali cur ;;;
     vcd_changes todo c period num_samples i cur changed (vali + 1) true).
Proof.
  intros Hcond. cbn [vcd_changes].
  destruct (Z.eqb_spec i (u32 (num_samples - 1))) as [Hi | Hi];
    [reflexivity|].
  destruct (Z.eqb_spec (Z.land changed (mask (value_at c vali))) 0)
    as [H0 | H0];
    [|reflexivity].
  destruct Hcond; contradiction.
Qed.

End Changes.

Lemma vcd_changes_silent_witness :
  0 <> u32 (3 - 1)
  /\ (forall vv, In vv (vcd_values one_bit_cfg) -> Z.land 1 (mask vv) = 0)
  /\ vcd_changes (R := float) 1 one_bit_cfg (of_unsigned 100) 3 0 1 1 0 false
                 (boot [])
     = (Ok tt, boot []).
Proof.
  assert (Hi : 0 <> u32 (3 - 1)) by discriminate.
  assert (Hq : forall vv, In vv (vcd_values one_bit_cfg) ->
                          Z.land 1 (mask vv) = 0)
    by (intros vv [<- | []]; reflexivity).
  split; [exact Hi | split; [exact Hq |]].
  exact (vcd_changes_silent 1 one_bit_cfg (of_unsigned 100) 3 0 1 1 0 false
                            (boot []) Hi Hq).
Defined.

(** ** More on command frames *)

Lemma u8_octet (x : Z) : octet (u8 x).
Proof. unfold octet, u8. apply Z.mod_pos_bound. reflexivity. Qed.

Lemma flag_octet (c : bool) (x : Z) : octet x -> octet (flag c x).
Proof. intros Hx. destruct c; [exact Hx | unfold octet; cbn; lia]. Qed.

Ltac octets :=
  repeat constructor;
  first [ apply u8_octet | apply flag_octet; unfold octet; lia
        | unfold octet; lia ].

(** X1.  Whatever their arguments, the encoders build frames of one byte or
    of five, and every byte of a frame is an octet. *)
Theorem frames_are_one_or_five_octets (c : cmd) :
  is_command c ->
  (List.length (frame c) = 1%nat \/ List.length (frame c) = 5%nat)
  /\ Forall octet (frame c).
Proof.
  intros [-> | [-> | [-> | [-> | [[d H] | [[r [d H]] | [[g [a [b [x [y [z H]]]]]]
    | [[s [m H]] | [[s [v H]] | [s [d [l [ch [a [b H]]]]]]]]]]]]]]].
  - split; [left; reflexivity | octets].
  - split; [left; reflexivity | octets].
  - split; [left; reflexivity | octets].
  - split; [left; reflexivity | octets].
  - unfold cmd_divider in H. destruct (_ =? _); inversion H.
    split; [right; reflexivity | octets].
  - subst c. split; [right; reflexivity | octets].
  - unfold cmd_flags in H. destruct (_ =? _); inversion H.
    split; [right; reflexivity | octets].
  - unfold cmd_trig_mask in H. apply guarded_some in H. subst c.
    split; [right; reflexivity | octets].
  - unfold cmd_trig_value in H. apply guarded_some in H. subst c.
    split; [right; reflexivity | octets].
  - unfold cmd_trig_cfg in H. destruct (_ && _); inversion H.
    split; [right; reflexivity | octets].
Qed.

Lemma frames_are_one_or_five_octets_witness :
  is_command (cmd_counts 16384 16383)
  /\ (List.length (frame (cmd_counts 16384 16383)) = 1%nat
      \/ List.length (frame (cmd_counts 16384 16383)) = 5%nat)
  /\ Forall octet (frame (cmd_counts 16384 16383)).
Proof.
  assert (H : is_command (cmd_counts 16384 16383)).
  { do 5 right. left. now exists 16384, 16383. }
  split; [exact H | exact (frames_are_one_or_five_octets _ H)].
Defined.








(** Case analysis on a small unsigned number. *)
Ltac enumerate x bound :=
  assert (0 <= x < bound) by lia;
  repeat match goal with
         | H : ?lo <= x < ?hi |- _ =>
             let more := eval cbv in (lo <? hi) in
             match more with
             | true =>
                 destruct (Z.eq_dec x lo) as [-> | ?];
                 [ clear H
                 | let lo' := eval cbv in (lo + 1) in
                   assert (lo' <= x < hi) by lia; clear H ]
             | false => exfalso; lia
             end
         end.

(** X5.  [cmd_flags] accepts exactly the group masks of four bits.  In the
    frame of one it accepts, byte 1 carries the mask in bits 2 to 5 and the
    demux, filter, external and inverted flags in bits 0, 1, 6 and 7; byte 2
    carries the RLE flag in bit 0; bytes 3 and 4 are zero. *)
Theorem cmd_flags_layout (group_disable : Z)
        (demux filter external inverted rle : bool) :
  0 <= group_disable ->
  (group_disable < 16 ->
   exists c,
     cmd_flags group_disable demux filter external inverted rle = Some c
     /\ List.length (frame c) = 5%nat
     /\ nth 0 (frame c) 0 = 0x82
     /\ Z.land (Z.shiftr (nth 1 (frame c) 0) 2) 0xF = group_disable
     /\ Z.testbit (nth 1 (frame c) 0) 0 = demux
     /\ Z.testbit (nth 1 (frame c) 0) 1 = filter
     /\ Z.testbit (nth 1 (frame c) 0) 6 = external
     /\ Z.testbit (nth 1 (frame c) 0) 7 = inverted
     /\ nth 2 (frame c) 0 = (if rle then 1 else 0)
     /\ nth 3 (frame c) 0 = 0
     /\ nth 4 (frame c) 0 = 0)
  /\ (16 <= group_disable ->
      cmd_flags group_disable demux filter external inverted rle = None).
Proof.
  intros Hg. split.
  - intros Hlt. enumerate group_disable 16;
      (eexists; split; [reflexivity|]);
      destruct demux, filter, external, inverted, rle;
      vm_compute; repeat split.
  - intros Hge. unfold cmd_flags.
    destruct (Z.eqb_spec (Z.shiftr group_disable 4) 0) as [H0 | H0];
      [|reflexivity].
    rewrite Z.shiftr_div_pow2 in H0 by lia.
    assert (1 <= group_disable / 2 ^ 4)
      by (apply Z.div_le_lower_bound; cbn; lia).
    lia.
Qed.

Lemma cmd_flags_layout_witness :
  0 <= 14
  /\ exists c,
      cmd_flags 14 false false false false true = Some c
      /\ List.length (frame c) = 5%nat
      /\ nth 0 (frame c) 0 = 0x82
      /\ Z.land (Z.shiftr (nth 1 (frame c) 0) 2) 0xF = 14
      /\ Z.testbit (nth 1 (frame c) 0) 0 = false
      /\ Z.testbit (nth 1 (frame c) 0) 1 = false
      /\ Z.testbit (nth 1 (frame c) 0) 6 = false
      /\ Z.testbit (nth 1 (frame c) 0) 7 = false
      /\ nth 2 (frame c) 0 = 1
      /\ nth 3 (frame c) 0 = 0
      /\ nth 4 (frame c) 0 = 0.
Proof.
  split; [lia|].
  apply (proj1 (cmd_flags_layout 14 false false false false true
                                 ltac:(lia))).
  lia.
Defined.



(** ** More on the metadata loop *)

Lemma read_byte_next (w : world) (b : Z) (rest : list Z) :
  tty_in w = b :: rest ->
  read_byte w = (Ok b, after_bytes w [b] rest).
Proof.
  intros Hin. unfold read_byte, bind, read_tty, ret. rewrite Hin.
  cbn [List.length Nat.leb firstn skipn nth]. reflexivity.
Qed.

Lemma after_bytes_app (w : world) (bs bs' mid rest : list Z) :
  after_bytes (after_bytes w bs mid) bs' rest = after_bytes w (bs ++ bs') rest.
Proof.
  unfold after_bytes. cbn [tty_log stdout]. now rewrite map_app, app_assoc.
Qed.

Lemma meta_drain_to_nul (s rest : list Z) :
  Forall (fun b => b <> 0) s ->
  forall fuel w,
    tty_in w = s ++ 0 :: rest ->
    (List.length s < fuel)%nat ->
    meta_drain fuel w = (Ok tt, after_bytes w (s ++ [0]) rest).
Proof.
  induction 1 as [|b s Hb Hs IH]; intros fuel w Hin Hfuel;
    (destruct fuel as [|fuel]; [cbn in Hfuel; lia|]); cbn [meta_drain];
    unfold bind; rewrite (read_byte_next w _ _ Hin).
  - reflexivity.
  - destruct (Z.eqb_spec b 0); [contradiction|]. cbn [negb].
    rewrite (IH fuel); [| reflexivity | cbn in Hfuel; lia].
    now rewrite after_bytes_app.
Qed.

Lemma bind_assoc {A B C} (m : io A) (f : A -> io B) (g : B -> io C)
      (w : world) :
  bind (bind m f) g w = bind m (fun a => bind (f a) g) w.
Proof. unfold bind. destruct (m w) as [[a | s] w']; reflexivity. Qed.

Lemma rounds_bind {A B} (loop : nat -> io A) (k : A -> io B) (w : world) :
  bind (rounds loop) k w = bind (loop (S (List.length (tty_in w)))) k w.
Proof. reflexivity. Qed.

Lemma meta_string_to_nul (s rest : list Z) :
  Forall (fun b => b <> 0) s ->
  forall fuel i w,
    tty_in w = s ++ 0 :: rest ->
    (List.length s < fuel)%nat ->
    0 <= i < 256 ->
    (last <- meta_string fuel i ;;
     if negb (last =? 0) then rounds meta_drain else ret tt) w
    = (Ok tt, after_bytes w (s ++ [0]) rest).
Proof.
  induction 1 as [|b s Hb Hs IH]; intros fuel i w Hin Hfuel Hi;
    (destruct fuel as [|fuel]; [cbn in Hfuel; lia|]); cbn [meta_string];
    rewrite bind_assoc; unfold bind at 1; rewrite (read_byte_next w _ _ Hin).
  - cbn [Z.eqb negb andb]. reflexivity.
  - destruct (Z.eqb_spec b 0); [contradiction|]. cbn [negb andb].
    destruct (Z.eqb_spec (i + 1) 256) as [Hfull | Hroom]; cbn [negb].
    + unfold bind, ret.
      destruct (Z.eqb_spec b 0); [contradiction|]. cbn [negb].
      unfold rounds. cbn [after_bytes tty_in].
      rewrite (meta_drain_to_nul s rest Hs);
        [| reflexivity | rewrite length_app; cbn; lia].
      now rewrite after_bytes_app.
    + rewrite (IH fuel); [| reflexivity | cbn in Hfuel; lia | lia].
      now rewrite after_bytes_app.
Qed.

(** X7.  A string entry takes the line up to and including its first NUL,
    however long the string (beyond 255 bytes it is cut short but still read
    to its end), and leaves the configuration as it was: the loop goes on
    with the byte after the NUL. *)
Theorem meta_string_entry_is_skipped (fuel : nat) (c : cfg) (w : world)
        (tag : Z) (s rest : list Z) :
  1 <= tag < 32 ->
  Forall (fun b => b <> 0) s ->
  tty_in w = tag :: s ++ 0 :: rest ->
  meta_loop (S fuel) c w
  = meta_loop fuel c (after_bytes w (tag :: s ++ [0]) rest).
Proof.
  intros Htag Hs Hin. cbn [meta_loop]. unfold bind at 1.
  rewrite (read_byte_next w _ _ Hin).
  destruct (Z.eqb_spec tag 0); [lia|].
  assert (Hkind : Z.shiftr tag 5 = 0).
  { rewrite Z.shiftr_div_pow2 by lia. apply Z.div_small. cbn; lia. }
  rewrite Hkind. rewrite <- bind_assoc. unfold bind at 1.
  rewrite rounds_bind.
  rewrite (meta_string_to_nul s rest Hs);
    [| reflexivity | cbn [after_bytes tty_in]; rewrite length_app; cbn; lia
     | lia].
  rewrite after_bytes_app. reflexivity.
Qed.

Lemma meta_string_entry_is_skipped_witness :
  1 <= 1 < 32
  /\ Forall (fun b => b <> 0) [65; 66]
  /\ meta_loop 3 default_cfg (boot [1; 65; 66; 0; 0])
     = meta_loop 2 default_cfg
                 (after_bytes (boot [1; 65; 66; 0; 0]) [1; 65; 66; 0] [0]).
Proof.
  assert (Ht : 1 <= 1 < 32) by lia.
  assert (Hs : Forall (fun b => b <> 0) [65; 66])
    by (repeat constructor; discriminate).
  split; [exact Ht | split; [exact Hs |]].
  exact (meta_string_entry_is_skipped 2 default_cfg (boot [1; 65; 66; 0; 0])
                                      1 [65; 66] [0] Ht Hs eq_refl).
Defined.

(** X8.  A tag whose kind is not 0, 1 or 2 ends the decoding without
    failing: [read_ident] returns the configuration it had reached, and the
    bytes after the tag stay unread. *)
Theorem meta_unknown_kind_stops (fuel : nat) (c : cfg) (w : world)
        (tag : Z) (rest : list Z) :
  96 <= tag < 256 ->
  tty_in w = tag :: rest ->
  meta_loop (S fuel) c w = (Ok c, after_bytes w [tag] rest).
Proof.
  intros Htag Hin. cbn [meta_loop]. unfold bind.
  rewrite (read_byte_next w _ _ Hin).
  destruct (Z.eqb_spec tag 0); [lia|].
  rewrite Z.shiftr_div_pow2 by lia. change (2 ^ 5) with 32.
  assert (Hk : 3 <= tag / 32 <= 7)
    by (split; [apply Z.div_le_lower_bound | apply Z.lt_succ_r,
                                             Z.div_lt_upper_bound]; lia).
  destruct (tag / 32) as [|[[|[]|]|[|[]|]|]|]; try lia; reflexivity.
Qed.

Lemma meta_unknown_kind_stops_witness :
  96 <= 0x60 < 256
  /\ meta_loop 4 default_cfg (boot [0x60; 1; 2; 3])
     = (Ok default_cfg, after_bytes (boot [0x60; 1; 2; 3]) [0x60] [1; 2; 3]).
Proof.
  assert (Ht : 96 <= 0x60 < 256) by lia.
  split; [exact Ht |].
  exact (meta_unknown_kind_stops 3 default_cfg (boot [0x60; 1; 2; 3]) 0x60
                                 [1; 2; 3] Ht eq_refl).
Defined.








(** ** More on the derivation *)

(** X10.  The loop of [main] over [group_enable & group_mask] counts, for a
    non-zero 32-bit value, the bits up to its highest set one. *)
Theorem count_groups_is_bit_length (n : Z) :
  0 < n < 2 ^ 32 ->
  count_groups 32 n 0 = Z.log2 n + 1.
Proof.
  intros Hn.
  assert (Hlog : Z.log2 n < Z.of_nat 32)
    by (apply Z.log2_lt_pow2; [lia | exact (proj2 Hn)]).
  assert (Hfit : 0 + Z.of_nat 32 < 2 ^ 32) by (cbn; lia).
  rewrite (count_groups_bit_length 32 n 0 (proj1 Hn) Hlog (Z.le_refl 0) Hfit).
  lia.
Qed.

Lemma count_groups_is_bit_length_witness :
  0 < 5 < 2 ^ 32 /\ count_groups 32 5 0 = Z.log2 5 + 1.
Proof.
  assert (H : 0 < 5 < 2 ^ 32) by (cbn; lia).
  split; [exact H | exact (count_groups_is_bit_length 5 H)].
Defined.

(** X11.  With no group mask given, between 1 and 248 probes and a non-zero
    clock frequency, the derivation enables every group: [max_groups] is the
    probe count divided by 8 and rounded up, the mask and the enabled groups
    are its low [max_groups] bits, and [num_groups_enabled] is [max_groups];
    a sample count left at 0 becomes [sample_memory / max_groups]. *)
Theorem derive_defaults_to_all_groups (c : cfg) (after_trig : Z) (w : world) :
  1 <= num_probes c <= 248 ->
  group_enable c = 0 ->
  clk_freq_hz c <> 0 ->
  exists c',
    derive c after_trig w = (Ok c', w)
    /\ max_groups c' = (num_probes c + 7) / 8
    /\ group_mask c' = 2 ^ max_groups c' - 1
    /\ group_enable c' = group_mask c'
    /\ num_groups_enabled c' = max_groups c'
    /\ samples c' = (if samples c =? 0
                     then sample_memory c / max_groups c'
                     else samples c).
Proof.
  intros Hnp Hge Hclk.
  destruct (group_mask_of_probes (num_probes c) Hnp)
    as [Hmg [Hmg' [Hshl [Hgm Hgm1]]]].
  set (mg := u32 (num_probes c + 7) / 8) in *.
  assert (Hcount : count_groups 32 (2 ^ mg - 1) 0 = mg).
  { assert (Hlog : Z.log2 (2 ^ mg - 1) = mg - 1).
    { replace (2 ^ mg - 1) with (Z.pred (2 ^ mg)) by lia.
      rewrite Z.log2_pred_pow2 by lia. lia. }
    assert (Hfit : 0 + Z.of_nat 32 < 2 ^ 32) by (cbn; lia).
    rewrite (count_groups_bit_length 32 (2 ^ mg - 1) 0 ltac:(lia)
               ltac:(rewrite Hlog; cbn; lia) (Z.le_refl 0) Hfit).
    lia. }
  rewrite (derive_unfolded c after_trig w (2 ^ mg) Hshl).
  cbv zeta. fold mg. rewrite Hgm, Hge. cbn [Z.eqb].
  rewrite Z.land_diag, Hcount.
  destruct (Z.eqb_spec mg 0) as [H0 | H0]; [lia|]. rewrite andb_false_r.
  destruct (Z.eqb_spec (clk_freq_hz c) 0); [contradiction|].
  eexists. split; [reflexivity|].
  cbn [max_groups group_mask group_enable num_groups_enabled samples].
  repeat split. exact Hmg'.
Qed.

Lemma derive_defaults_to_all_groups_witness :
  exists c',
    derive default_cfg UINT32_MAX (boot []) = (Ok c', boot [])
    /\ max_groups c' = (num_probes default_cfg + 7) / 8
    /\ group_mask c' = 2 ^ max_groups c' - 1
    /\ group_enable c' = group_mask c'
    /\ num_groups_enabled c' = max_groups c'
    /\ samples c' = (if samples default_cfg =? 0
                     then sample_memory default_cfg / max_groups c'
                     else samples default_cfg).
Proof.
  apply (derive_defaults_to_all_groups default_cfg UINT32_MAX (boot [])).
  - cbn. lia.
  - reflexivity.
  - discriminate.
Defined.

Lemma derive_undefined_shift (c : cfg) (after_trig : Z) (w : world) :
  shl1 (u32 (num_probes c + 7) / 8) = None ->
  derive c after_trig w = (Stop Undefined, w).
Proof. intros Hshl. unfold derive. rewrite Hshl. reflexivity. Qed.

(** X12.  The derivation neither prints nor talks to the device.  It returns
    only with a non-zero clock frequency, which it does not change; it stops
    either on an undefined shift or division, or, when those are defined,
    with the failure status on a zero clock frequency. *)
Theorem derive_refuses_zero_clock (c : cfg) (after_trig : Z) (w : world) :
  snd (derive c after_trig w) = w
  /\ match fst (derive c after_trig w) with
     | Ok c' => clk_freq_hz c' = clk_freq_hz c /\ clk_freq_hz c <> 0
     | Stop s => s = Undefined
                 \/ (s = Exited EXIT_FAILURE /\ clk_freq_hz c = 0)
     end.
Proof.
  destruct (shl1 (u32 (num_probes c + 7) / 8)) as [one|] eqn:Hshl.
  - rewrite (derive_unfolded c after_trig w one Hshl). cbv zeta.
    destruct (_ && _); cbn [fst snd]; [auto|].
    destruct (Z.eqb_spec (clk_freq_hz c) 0); cbn [fst snd clk_freq_hz]; auto.
  - rewrite (derive_undefined_shift c after_trig w Hshl). cbn. auto.
Qed.

(** X13.  An after-trigger count takes the place of the before-trigger
    count: the derived [before_trig] is what is left of the sample count
    once the after-trigger count, or the whole sample count if that is
    smaller, is taken off.  Without one ([UINT32_MAX]) [before_trig] stays. *)
Theorem derive_after_overrides_before (c c' : cfg) (after_trig : Z)
        (w w' : world) :
  0 <= samples c < 2 ^ 32 ->
  0 <= sample_memory c < 2 ^ 32 ->
  0 <= after_trig ->
  derive c after_trig w = (Ok c', w') ->
  (after_trig <> UINT32_MAX ->
   before_trig c' = samples c' - Z.min after_trig (samples c'))
  /\ (after_trig = UINT32_MAX -> before_trig c' = before_trig c).
Proof.
  intros Hs Hm Ha Hrun.
  destruct (shl1 (u32 (num_probes c + 7) / 8)) as [one|] eqn:Hshl;
    [| rewrite (derive_undefined_shift c after_trig w Hshl) in Hrun;
       discriminate].
  rewrite (derive_unfolded c after_trig w one Hshl) in Hrun. cbv zeta in Hrun.
  set (g := count_groups 32 _ 0) in Hrun.
  assert (Hg : 0 <= g)
    by (pose proof (count_groups_bounds 32 (Z.land
          (if group_enable c =? 0 then u32 (one - 1) else group_enable c)
          (u32 (one - 1))) 0 (Z.le_refl 0) ltac:(cbn; lia)); subst g; lia).
  set (s := if samples c =? 0 then sample_memory c / g else samples c) in Hrun.
  assert (Hsr : 0 <= s < 2 ^ 32).
  { subst s. destruct (samples c =? 0); [|exact Hs].
    destruct (Z.eq_dec g 0) as [-> | Hg0].
    - rewrite Z.div_0_r. cbn. lia.
    - split; [apply Z.div_pos; lia|].
      apply Z.le_lt_trans with (sample_memory c); [|lia].
      apply Z.div_le_upper_bound; [lia|]. nia. }
  destruct (_ && _); [discriminate|].
  destruct (clk_freq_hz c =? 0); [discriminate|].
  inversion Hrun; subst c' w'. cbn [before_trig samples].
  destruct (Z.eqb_spec after_trig UINT32_MAX) as [Hmax | Hgiven]; cbn [negb].
  - split; [contradiction | reflexivity].
  - split; [|contradiction]. intros _.
    destruct (Z.gtb_spec after_trig s).
    + rewrite Z.min_r by lia. rewrite Z.sub_diag. reflexivity.
    + rewrite Z.min_l by lia. apply Z.mod_small. lia.
Qed.

Lemma derive_after_overrides_before_witness :
  let c := set_samples default_cfg 100 in
  let c' := match fst (derive c 30 (boot [])) with
            | Ok c' => c'
            | Stop _ => c
            end in
  derive c 30 (boot []) = (Ok c', boot [])
  /\ before_trig c' = samples c' - Z.min 30 (samples c')
  /\ before_trig c' = 70.
Proof.
  cbv zeta.
  assert (Hrun : derive (set_samples default_cfg 100) 30 (boot [])
                 = (Ok match fst (derive (set_samples default_cfg 100) 30
                                         (boot [])) with
                       | Ok c' => c'
                       | Stop _ => set_samples default_cfg 100
                       end, boot []))
    by (vm_compute; reflexivity).
  split; [exact Hrun | split; [| vm_compute; reflexivity]].
  apply (proj1 (derive_after_overrides_before
                  (set_samples default_cfg 100) _ 30 (boot []) (boot [])
                  ltac:(cbn; lia) ltac:(cbn; lia) ltac:(lia) Hrun)).
  discriminate.
Defined.

(** ** More on [capture] *)

Section Prints.

Context {R : Type} `{Double R}.
Variable now : string.

Lemma write_vcd_value_prints (c : cfg) (vali sample : Z) :
  behaves no_traffic any_stop anything (write_vcd_value c vali sample).
Proof.
  unfold write_vcd_value. quiet.
  generalize (ret tt : io unit)
             (behaves_ret no_traffic any_stop anything tt I).
  induction (bitmasks (value_at c vali)) as [|bm bms IH]; intros acc Hacc.
  - exact Hacc.
  - cbn [fold_left]. apply IH. quiet. exact Hacc.
Qed.

Lemma vcd_vars_prints (todo : nat) (c : cfg) (vali : Z) :
  behaves no_traffic any_stop anything (vcd_vars todo c vali).
Proof.
  revert vali; induction todo; intros vali; cbn [vcd_vars]; quiet.
  apply IHtodo.
Qed.

Lemma vcd_dumpvars_prints (todo : nat) (c : cfg) (vali : Z) :
  behaves no_traffic any_stop anything (vcd_dumpvars todo c vali).
Proof.
  revert vali; induction todo; intros vali; cbn [vcd_dumpvars]; quiet.
  - apply write_vcd_value_prints.
  - apply IHtodo.
Qed.

Lemma vcd_word_prints (todo : nat) (m : memory) (c : cfg) (ptr j cur : Z) :
  behaves no_traffic any_stop anything (vcd_word todo m c ptr j cur).
Proof.
  revert j cur; induction todo; intros j cur; cbn [vcd_word]; quiet.
  apply IHtodo.
Qed.

Lemma vcd_changes_prints (todo : nat) (c : cfg) (period : R)
      (num_samples i cur changed vali : Z) (written_time : bool) :
  behaves no_traffic any_stop anything
          (vcd_changes todo c period num_samples i cur changed vali
                       written_time).
Proof.
  revert vali written_time; induction todo; intros vali written_time;
    cbn [vcd_changes]; quiet;
    try apply write_vcd_value_prints; apply IHtodo.
Qed.

Lemma vcd_samples_prints (todo : nat) (m : memory) (c : cfg) (period : R)
      (num_samples i prev ptr : Z) :
  behaves no_traffic any_stop anything
          (vcd_samples todo m c period num_samples i prev ptr).
Proof.
  revert i prev ptr; induction todo; intros i prev ptr; cbn [vcd_samples];
    quiet.
  - apply vcd_word_prints.
  - apply vcd_changes_prints.
  - apply IHtodo.
Qed.

Lemma write_vcd_prints (c : cfg) (m : memory) (sample_buf num_samples : Z) :
  behaves no_traffic any_stop anything
          (write_vcd now c m sample_buf num_samples).
Proof.
  unfold write_vcd. quiet.
  - unfold infer_timescale. quiet.
  - apply vcd_vars_prints.
  - apply vcd_dumpvars_prints.
  - apply vcd_samples_prints.
Qed.

Lemma fwrite_prints (todo : nat) (m : memory) (p : Z) :
  behaves no_traffic any_stop anything (fwrite todo m p).
Proof.
  revert p; induction todo; intros p; cbn [fwrite]; quiet. apply IHtodo.
Qed.

Lemma hex_sample_prints (todo : nat) (m : memory) (c : cfg) (ptr j : Z) :
  behaves no_traffic any_stop anything (hex_sample todo m c ptr j).
Proof.
  revert j; induction todo; intros j; cbn [hex_sample]; quiet. apply IHtodo.
Qed.

Lemma dump_samples_prints (todo : nat) (m : memory) (c : cfg) (ptr : Z) :
  behaves no_traffic any_stop anything (dump_samples todo m c ptr).
Proof.
  revert ptr; induction todo; intros ptr; cbn [dump_samples]; quiet;
    try apply fwrite_prints; try apply hex_sample_prints; apply IHtodo.
Qed.

Lemma prints_keep_log {A} (m : io A) (w : world) :
  behaves no_traffic any_stop anything m ->
  tty_log (snd (m w)) = tty_log w.
Proof.
  intros Hm. destruct (Hm w) as [[more [Hlog Hmore]] _].
  destruct more as [|e more]; [now rewrite app_nil_r in Hlog|].
  inversion Hmore as [|? ? He]. destruct He.
Qed.

Lemma step_write {A} (cmd : cmd) (k : io A) (w : world) :
  (write_tty cmd ;;; k) w = k (logged w (Tx (frame cmd))).
Proof. reflexivity. Qed.

Lemma step_send {A} (o : option cmd) (k : io A) (w : world) :
  o <> None ->
  (send o ;;; k) w = k (logged w (Tx (frame_of o))).
Proof. intros Ho. destruct o; [reflexivity | contradiction]. Qed.

Lemma step_send_fails {A} (k : io A) (w : world) :
  (send None ;;; k) w = (Stop Aborted, w).
Proof. reflexivity. Qed.

Lemma step_resets {A} (k : io A) (w : world) :
  (times 5 (write_tty cmd_reset) ;;; k) w
  = k (logged (logged (logged (logged (logged w (Tx [0])) (Tx [0])) (Tx [0]))
                      (Tx [0])) (Tx [0])).
Proof. reflexivity. Qed.

End Prints.

Lemma logged_in (w : world) (e : event) : tty_in (logged w e) = tty_in w.
Proof. reflexivity. Qed.

Lemma logged_log (w : world) (e : event) :
  tty_log (logged w e) = tty_log w ++ [e].
Proof. reflexivity. Qed.

Lemma logged_out (w : world) (e : event) : stdout (logged w e) = stdout w.
Proof. reflexivity. Qed.

Section Traffic.

Context {R : Type} `{Double R}.
Variable now : string.

Lemma trig_commands_encode (stage m : Z) (level : Z) (start : bool) :
  0 <= stage <= 3 -> 0 <= level <= 3 ->
  cmd_trig_mask stage m <> None
  /\ cmd_trig_value stage m <> None
  /\ cmd_trig_cfg stage 0 level 0 false start <> None.
Proof.
  intros Hs Hl. unfold cmd_trig_mask, cmd_trig_value, cmd_trig_cfg.
  destruct (Z.leb_spec stage 3); [|lia].
  destruct (Z.leb_spec level 3); [|lia].
  cbn. repeat split; discriminate.
Qed.

Lemma capture_reaches_rendering (c : cfg) (w : world) :
  capturable c w ->
  let g := num_groups_enabled c in
  let n := Z.min (samples c) (sample_memory c / g) in
  let bytes := firstn (Z.to_nat (n * g)) (tty_in w) in
  capture now c w
  = (if negb (vcd_num_values c =? 0) then
       write_vcd now c (block bytes) 0 n
     else
       dump_samples (Z.to_nat n) (block bytes) c (0 + u32 (n * g - 1)))
      {| tty_in := skipn (Z.to_nat (n * g)) (tty_in w);
         tty_log := tty_log w ++ capture_log c (tty_in w);
         stdout := stdout w |}.
Proof.
  intros [Hdiv [Hdis [Hg [Hs [Hm [Hb Hin]]]]]] g n bytes.
  set (group_dis := Z.land (not32 (group_enable c)) (group_mask c)) in *.
  set (before := Z.min (before_trig c) n).
  fold g in Hg, Hin. fold n in Hin.
  assert (Hmax : 0 <= sample_memory c / g) by (apply Z.div_pos; lia).
  assert (Hn : 0 <= n) by (unfold n; lia).
  assert (Hng : 0 <= n * g <= sample_memory c).
  { split; [nia|]. apply Z.le_trans with (sample_memory c / g * g).
    - apply Z.mul_le_mono_nonneg_r; [lia | unfold n; lia].
    - rewrite Z.mul_comm. apply Z.mul_div_le. lia. }
  assert (Hnle : n <= sample_memory c) by nia.
  unfold capture. fold g. fold group_dis.
  rewrite step_resets.
  assert (Hu : u32 (clk_divisor c - 1) = clk_divisor c - 1)
    by (apply Z.mod_small; change (2 ^ 32) with 4294967296;
        change (2 ^ 24) with 16777216 in Hdiv; lia).
  rewrite Hu.
  assert (Hcd : cmd_divider (clk_divisor c - 1) <> None).
  { unfold cmd_divider. rewrite Z.shiftr_div_pow2 by lia.
    rewrite Z.div_small by lia. discriminate. }
  rewrite (step_send _ _ _ Hcd).
  assert (Hcf : cmd_flags group_dis false false false false (rle c) <> None).
  { unfold cmd_flags. rewrite Z.shiftr_div_pow2 by lia.
    rewrite Z.div_small by (cbn; lia). discriminate. }
  assert (Hmin : forall a b, (if a >? b then b else a) = Z.min a b)
    by (intros a b; destruct (Z.gtb_spec a b); lia).
  assert (Hrest :
    forall w0,
      tty_in w0 = tty_in w ->
      (max_samples <- defined (udiv (sample_memory c) g) ;;
       let capture_samples :=
         if samples c >? max_samples then max_samples else samples c in
       let before_samples :=
         if before_trig c >? capture_samples then capture_samples
         else before_trig c in
       write_tty (cmd_counts (u16 (capture_samples / 4))
                    (u16 (u32 (capture_samples - before_samples) / 4))) ;;;
       send (cmd_flags group_dis false false false false (rle c)) ;;;
       write_tty cmd_run ;;;
       let size := u32 (capture_samples * g) in
       bytes <- read_tty (Z.to_nat size) ;;
       let m := block bytes in
       let buf := 0 in
       if negb (vcd_num_values c =? 0) then
         write_vcd now c m buf capture_samples
       else
         let ptr := buf + u32 (size - 1) in
         dump_samples (Z.to_nat capture_samples) m c ptr) w0
      = (if negb (vcd_num_values c =? 0) then
           write_vcd now c (block bytes) 0 n
         else
           dump_samples (Z.to_nat n) (block bytes) c (0 + u32 (n * g - 1)))
          {| tty_in := skipn (Z.to_nat (n * g)) (tty_in w);
             tty_log :=
               tty_log w0
               ++ map Tx [ frame (cmd_counts (u16 (n / 4))
                                             (u16 ((n - before) / 4)));
                           frame_of (cmd_flags group_dis false false false
                                               false (rle c));
                           [1] ]
               ++ [ Rx bytes ];
             stdout := stdout w0 |}).
  { intros w0 Hw0. unfold udiv.
    destruct (Z.eqb_spec g 0); [lia|].
    unfold defined, bind at 1, ret. cbv zeta.
    rewrite !Hmin. fold n. fold before.
    assert (Hnb : u32 (n - before) = n - before)
      by (apply Z.mod_small; unfold before; lia).
    assert (Hsz : u32 (n * g) = n * g) by (apply Z.mod_small; lia).
    rewrite Hnb, Hsz, step_write, (step_send _ _ _ Hcf), step_write.
    unfold bind, read_tty. cbn [logged tty_in].
    rewrite Hw0.
    destruct (Nat.leb_spec (Z.to_nat (n * g)) (List.length (tty_in w)));
      [|lia].
    fold bytes. unfold logged. cbn [tty_log stdout map].
    rewrite <- !app_assoc. reflexivity. }
  unfold capture_log, trigger_frames. fold g group_dis n before bytes.
  destruct (trigger_mask c =? 0).
  - destruct (trig_commands_encode 0 0 0 true ltac:(lia) ltac:(lia))
      as [Hm0 [Hv0 Hc0]].
    repeat (rewrite ?bind_assoc; cbv beta; rewrite step_send by assumption).
    rewrite Hrest by reflexivity.
    rewrite !logged_log, !logged_out. cbn [map app].
    rewrite <- !app_assoc. reflexivity.
  - destruct (trig_commands_encode 0 (trigger_mask c) 0 true
                                   ltac:(lia) ltac:(lia)) as [Hm0 [_ Hc0]].
    destruct (trig_commands_encode 0 (trigger_value c) 0 true
                                   ltac:(lia) ltac:(lia)) as [_ [Hv0 _]].
    destruct (trig_commands_encode 1 0 3 false ltac:(lia) ltac:(lia))
      as [Hm1 [Hv1 Hc1]].
    destruct (trig_commands_encode 2 0 3 false ltac:(lia) ltac:(lia))
      as [Hm2 [Hv2 Hc2]].
    destruct (trig_commands_encode 3 0 3 false ltac:(lia) ltac:(lia))
      as [Hm3 [Hv3 Hc3]].
    cbn [later_stages Z.add Pos.add Pos.succ].
    repeat (rewrite ?bind_assoc; cbv beta; rewrite step_send by assumption).
    unfold bind at 1, ret.
    rewrite Hrest by reflexivity.
    rewrite !logged_log, !logged_out. cbn [map app].
    rewrite <- !app_assoc. reflexivity.
Qed.

(** X14.  For a configuration the encoders accept (a divisor from 1 to
    2^24, fewer than 16 as the mask of disabled groups) with at least one
    enabled group, and a device that delivers the samples, [capture] sends,
    in this order: five resets; the divider with the divisor less one; mask,
    value and configuration of trigger stage 0, with the start flag, and,
    when a trigger mask is set, of stages 1 to 3 with zero mask and value,
    level 3 and no start flag; the counts, in units of four samples and cut
    to 16 bits, of the samples to read and of those after the trigger; the
    flags; run.  Then it reads as many bytes as samples captured times
    groups enabled, the samples being the requested ones but no more than
    fit the sample memory.  Whatever happens while rendering, nothing else
    crosses the line. *)
Theorem capture_traffic (c : cfg) (w : world) :
  capturable c w ->
  tty_log (snd (capture now c w)) = tty_log w ++ capture_log c (tty_in w).
Proof.
  intros Hc. rewrite (capture_reaches_rendering c w Hc). cbv zeta.
  match goal with
  | |- tty_log (snd ((if ?b then _ else _) ?w1)) = _ =>
      transitivity (tty_log w1);
      [ destruct b;
        [ apply prints_keep_log, write_vcd_prints
        | apply prints_keep_log, dump_samples_prints ]
      | reflexivity ]
  end.
Qed.

(** X15.  In hex and in raw mode, a capture of one sample or more never
    completes: after reading the samples, the rendering loop reads below
    the buffer. *)
Theorem capture_dump_reads_below_buffer (c : cfg) (w : world) :
  capturable c w ->
  vcd_values c = [] ->
  1 <= samples c ->
  1 <= sample_memory c / num_groups_enabled c ->
  num_groups_enabled c < 2 ^ 32 ->
  fst (capture now c w) = Stop Undefined.
Proof.
  intros Hc Hvcd Hs Hfit Hg32.
  rewrite (capture_reaches_rendering c w Hc). cbv zeta.
  unfold vcd_num_values. rewrite Hvcd. cbn [List.length Z.of_nat Z.eqb negb].
  destruct Hc as [_ [_ [Hg [_ [Hm _]]]]].
  set (g := num_groups_enabled c) in *.
  set (n := Z.min (samples c) (sample_memory c / g)).
  assert (Hn : 1 <= n) by (unfold n; lia).
  assert (Hng : 1 <= n * g <= sample_memory c).
  { split; [nia|]. apply Z.le_trans with (sample_memory c / g * g).
    - apply Z.mul_le_mono_nonneg_r; [lia | unfold n; lia].
    - rewrite Z.mul_comm. apply Z.mul_div_le. lia. }
  apply dump_samples_reads_below_buffer.
  - fold g. lia.
  - lia.
  - fold g. rewrite Z2Nat.id by lia.
    assert (Hu : u32 (n * g - 1) = n * g - 1) by (apply Z.mod_small; lia).
    rewrite Hu. lia.
Qed.

(** X16.  A divisor of 0, or one above 2^24, fails the assertion of
    [cmd_divider]: [capture] aborts once the five resets are sent, before
    any other command. *)
Theorem capture_rejects_divisor (c : cfg) (w : world) :
  clk_divisor c = 0 \/ 2 ^ 24 < clk_divisor c < 2 ^ 32 ->
  capture now c w
  = (Stop Aborted,
     {| tty_in := tty_in w;
        tty_log := tty_log w ++ map Tx [ [0]; [0]; [0]; [0]; [0] ];
        stdout := stdout w |}).
Proof.
  intros Hdiv. unfold capture. rewrite step_resets.
  assert (Hcd : cmd_divider (u32 (clk_divisor c - 1)) = None).
  { unfold cmd_divider.
    destruct (Z.eqb_spec (Z.shiftr (u32 (clk_divisor c - 1)) 24) 0)
      as [H0 | H0]; [|reflexivity].
    destruct Hdiv as [Hz | Hbig];
      [rewrite Hz in H0; vm_compute in H0; discriminate|].
    assert (Hu : u32 (clk_divisor c - 1) = clk_divisor c - 1)
      by (apply Z.mod_small; lia).
    rewrite Hu, Z.shiftr_div_pow2 in H0 by lia.
    assert (1 <= (clk_divisor c - 1) / 2 ^ 24)
      by (apply Z.div_le_lower_bound; lia).
    lia. }
  rewrite Hcd, step_send_fails.
  unfold logged. cbn [tty_in tty_log stdout map]. rewrite <- !app_assoc.
  reflexivity.
Qed.

End Traffic.

Lemma four_samples_capturable :
  capturable four_samples_cfg (boot [0x44; 0x43; 0x42; 0x41]).
Proof. unfold capturable. cbn. repeat split; lia. Qed.

Lemma capture_traffic_witness :
  capturable four_samples_cfg (boot [0x44; 0x43; 0x42; 0x41])
  /\ tty_log (snd (capture (R := float) some_date four_samples_cfg
                           (boot [0x44; 0x43; 0x42; 0x41])))
     = tty_log (boot [0x44; 0x43; 0x42; 0x41])
       ++ capture_log four_samples_cfg
                      (tty_in (boot [0x44; 0x43; 0x42; 0x41])).
Proof.
  split; [exact four_samples_capturable|].
  exact (capture_traffic some_date four_samples_cfg
                         (boot [0x44; 0x43; 0x42; 0x41])
                         four_samples_capturable).
Defined.

Lemma capture_dump_reads_below_buffer_witness :
  capturable four_samples_cfg (boot [0x44; 0x43; 0x42; 0x41])
  /\ vcd_values four_samples_cfg = []
  /\ fst (capture (R := float) some_date four_samples_cfg
                  (boot [0x44; 0x43; 0x42; 0x41]))
     = Stop Undefined.
Proof.
  split; [exact four_samples_capturable | split; [reflexivity|]].
  apply (capture_dump_reads_below_buffer some_date four_samples_cfg
           (boot [0x44; 0x43; 0x42; 0x41]) four_samples_capturable eq_refl);
    cbn; lia.
Defined.

Lemma capture_rejects_divisor_witness :
  (clk_divisor (set_clk_divisor four_samples_cfg 0) = 0
   \/ 2 ^ 24 < clk_divisor (set_clk_divisor four_samples_cfg 0) < 2 ^ 32)
  /\ capture (R := float) some_date (set_clk_divisor four_samples_cfg 0)
             (boot [1; 2])
     = (Stop Aborted,
        {| tty_in := tty_in (boot [1; 2]);
           tty_log := tty_log (boot [1; 2])
                      ++ map Tx [ [0]; [0]; [0]; [0]; [0] ];
           stdout := stdout (boot [1; 2]) |}).
Proof.
  assert (Hd : clk_divisor (set_clk_divisor four_samples_cfg 0) = 0
               \/ 2 ^ 24 < clk_divisor (set_clk_divisor four_samples_cfg 0)
                  < 2 ^ 32) by (left; reflexivity).
  split; [exact Hd|].
  exact (capture_rejects_divisor some_date
                                 (set_clk_divisor four_samples_cfg 0)
                                 (boot [1; 2]) Hd).
Defined.

(** ** The argument parsers *)

Lemma parses_ret {A} (V : A -> Prop) (a : A) : V a -> parses V (ret a).
Proof. intros Ha w. split; [reflexivity | exact Ha]. Qed.

Lemma parses_argerr {A} (V : A -> Prop) : parses V (argerr (A := A)).
Proof. intros w. split; reflexivity. Qed.

Lemma parses_bind {A B} (V1 : A -> Prop) (V : B -> Prop)
      (m : io A) (k : A -> io B) :
  parses V1 m -> (forall a, V1 a -> parses V (k a)) -> parses V (bind m k).
Proof.
  intros Hm Hk w. unfold bind. destruct (Hm w) as [Hw Hres].
  destruct (m w) as [[a | s] w1]; cbn [fst snd] in *; subst w1.
  - apply Hk, Hres.
  - split; [reflexivity | exact Hres].
Qed.

Lemma parses_weaken {A} (V V' : A -> Prop) (m : io A) :
  (forall a, V a -> V' a) -> parses V m -> parses V' m.
Proof.
  intros HV Hm w. destruct (Hm w) as [Hw Hres]. split; [exact Hw|].
  destruct (fst (m w)); auto.
Qed.

Lemma advance_length (n : nat) (s : string) :
  String.length (advance n s) = (String.length s - n)%nat.
Proof.
  revert s; induction n as [|n IH]; intros s; destruct s as [|ch s];
    cbn [advance String.length]; try reflexivity; try lia.
  rewrite IH. lia.
Qed.

Lemma starts_with_nonempty (ch : ascii) (s : string) :
  starts_with ch s = true -> (0 < String.length s)%nat.
Proof. destruct s; [discriminate | cbn; lia]. Qed.

Section Parsers.

Variable strtoull : string -> Z * nat.

Lemma args_pop_popped (a : args) :
  match fst (args_pop a) with
  | Some _ => popped a (snd (args_pop a))
  | None => snd (args_pop a) = a
  end.
Proof.
  unfold args_pop. destruct (Z.eqb_spec (pos a) (argc a)); cbn [fst snd].
  - reflexivity.
  - repeat split. assumption.
Qed.

Ltac parse_step :=
  match goal with
  | |- parses _ (bind _ _) =>
      eapply parses_bind with (V1 := anything); [| intros ? _]
  | |- parses _ (ret _) => apply parses_ret
  | |- parses _ argerr => apply parses_argerr
  | |- parses _ (if ?b then _ else _) => destruct b
  | |- parses _ (match ?x with _ => _ end) => destruct x
  | |- parses _ (let (_, _) := ?x in _) => destruct x
  | |- anything _ => exact I
  end.

Lemma args_number_parses (a : args) :
  parses (fun r => popped a (snd r)) (args_number strtoull a).
Proof.
  unfold args_number. pose proof (args_pop_popped a) as Hpop.
  destruct (args_pop a) as [[arg|] a']; cbn [fst snd] in Hpop;
    repeat parse_step. exact Hpop.
Qed.

Lemma args_si_unit_parses (a : args) (unit : string) :
  parses (fun r => popped a (snd r)) (args_si_unit strtoull a unit).
Proof.
  unfold args_si_unit. pose proof (args_pop_popped a) as Hpop.
  destruct (args_pop a) as [[arg|] a']; cbn [fst snd] in Hpop;
    repeat parse_step; exact Hpop.
Qed.

Lemma args_numeqnum_parses (a : args) :
  parses (fun r => popped a (snd r)) (args_numeqnum strtoull a).
Proof.
  unfold args_numeqnum. pose proof (args_pop_popped a) as Hpop.
  destruct (args_pop a) as [[arg|] a']; cbn [fst snd] in Hpop;
    repeat parse_step. exact Hpop.
Qed.

Lemma split_bits_parses (todo : nat) (tm n : Z) (bits : list Z) :
  parses anything (split_bits todo tm n bits).
Proof.
  revert tm bits; induction todo; intros tm bits; cbn [split_bits];
    repeat parse_step; apply IHtodo.
Qed.

Lemma vcd_masks_parses (fuel : nat) (p : string) (vv : vcd_value) :
  (String.length p < fuel)%nat ->
  parses anything (vcd_masks strtoull fuel p vv).
Proof.
  revert p vv; induction fuel as [|fuel IH]; intros p vv Hfuel; [lia|].
  cbn [vcd_masks]. destruct (strtoull p) as [n used].
  destruct (Nat.eqb_spec used 0); cbn [orb]; [apply parses_argerr|].
  destruct (n >? UINT32_MAX); [apply parses_argerr|].
  eapply parses_bind with (V1 := anything); [apply split_bits_parses|].
  intros bits _.
  destruct (starts_with "," (advance used p)) eqn:Hcomma;
    [| now apply parses_ret].
  apply IH. apply starts_with_nonempty in Hcomma.
  rewrite advance_length in *. lia.
Qed.

Lemma args_vcd_value_parses (a : args) (vv : vcd_value) :
  parses (fun r => popped a (snd r)) (args_vcd_value strtoull a vv).
Proof.
  unfold args_vcd_value. pose proof (args_pop_popped a) as Hpop.
  destruct (args_pop a) as [[arg|] a']; cbn [fst snd] in Hpop;
    [| apply parses_argerr].
  destruct (name_length arg) as [len|]; [| apply parses_argerr].
  destruct (_ || _); [apply parses_argerr|].
  eapply parses_bind with (V1 := anything);
    [apply vcd_masks_parses; apply Nat.lt_succ_diag_r|].
  intros vv' _. apply parses_ret. exact Hpop.
Qed.

Lemma parse_option_parses (a : args) (c : cfg) (after_trig : Z) :
  pos a < argc a ->
  parses (advanced a) (parse_option strtoull a c after_trig).
Proof.
  intros Hpos. unfold parse_option.
  unfold args_pop at 1.
  destruct (Z.eqb_spec (pos a) (argc a)); [lia|].
  assert (Hone : forall c' t,
             advanced a ({| argv := argv a; argc := argc a;
                            pos := pos a + 1 |}, c', t))
    by (intros; unfold advanced; cbn; repeat split; lia).
  assert (Htwo : forall (a2 : args) c' t,
             popped {| argv := argv a; argc := argc a; pos := pos a + 1 |} a2 ->
             advanced a (a2, c', t)).
  { intros a2 c' t [Hv2 [Hc2 [Hp2 Hne]]]. unfold advanced. cbn [fst].
    rewrite Hv2, Hc2, Hp2. cbn [argv argc pos] in *. repeat split; lia. }
  repeat match goal with
         | |- parses _ (if ?b then _ else _) => destruct b
         end;
    try apply parses_argerr;
    try (apply parses_ret; apply Hone);
    (eapply parses_bind;
     [ first [ apply args_number_parses | apply args_si_unit_parses
             | apply args_numeqnum_parses | apply args_vcd_value_parses ]
     | intros r Hr; apply parses_ret; apply Htwo; exact Hr ]).
Qed.

Lemma parse_options_parses (fuel : nat) (a : args) (c : cfg)
      (after_trig : Z) :
  argc a - pos a <= Z.of_nat fuel ->
  parses anything (parse_options strtoull fuel a c after_trig).
Proof.
  revert a c after_trig; induction fuel as [|fuel IH];
    intros a c after_trig Hfuel; cbn [parse_options];
    destruct (Z.ltb_spec (pos a) (argc a)); try (now apply parses_ret).
  - lia.
  - eapply parses_bind; [now apply parse_option_parses|].
    intros [[a' c'] t] [Hv [Hc Hp]]. cbn [fst] in *.
    apply IH. lia.
Qed.

End Parsers.

Section CommandLine.

Context {R : Type} `{Double R}.
Variable now : string.
Variable strtoull : string -> Z * nat.

(** X17.  The command line is read before anything else happens: parsing
    leaves the serial line and standard output untouched and can only end by
    returning or through [argerr], and when it ends through [argerr], as
    when fewer than two arguments are given, [main] exits with the failure
    status without a byte sent or printed. *)
Theorem arguments_are_checked_first (argv : list string) (w : world) :
  let parsed :=
    parse_options strtoull (List.length argv)
                  {| argv := argv; argc := Z.of_nat (List.length argv);
                     pos := 2 |}
                  default_cfg UINT32_MAX w in
  snd parsed = w
  /\ match fst parsed with
     | Ok _ => True
     | Stop s =>
         s = Exited EXIT_FAILURE
         /\ main now strtoull argv w = (Stop (Exited EXIT_FAILURE), w)
     end
  /\ ((List.length argv < 2)%nat ->
      main now strtoull argv w = (Stop (Exited EXIT_FAILURE), w)).
Proof.
  cbv zeta.
  pose proof (parse_options_parses strtoull (List.length argv)
                {| argv := argv; argc := Z.of_nat (List.length argv);
                   pos := 2 |}
                default_cfg UINT32_MAX ltac:(cbn [argc pos]; lia) w)
    as [Hw Hres].
  split; [exact Hw|]. split.
  - destruct (parse_options strtoull _ _ default_cfg UINT32_MAX w)
      as [[r | s] w'] eqn:Hrun; cbn [fst snd] in *; [exact I|].
    split; [exact Hres|]. subst w' s.
    unfold main.
    destruct (Z.ltb_spec (Z.of_nat (List.length argv)) 2); [reflexivity|].
    unfold bind at 1, ret. unfold bind at 1. rewrite Hrun. reflexivity.
  - intros Hfew. unfold main.
    destruct (Z.ltb_spec (Z.of_nat (List.length argv)) 2); [reflexivity|lia].
Qed.

(** X18.  In the loop over the masks of a VCD value the text after a mask is
    handed back to [strtoull] with its comma, and [strtoull] converts
    nothing that starts with a comma: a second mask is never read, and a
    value given with two masks or more is refused. *)
Theorem vcd_masks_refuses_comma (p : string) (vv : vcd_value) (w : world) :
  (forall s, starts_with "," s = true -> snd (strtoull s) = O) ->
  starts_with "," (advance (snd (strtoull p)) p) = true ->
  vcd_masks strtoull (S (String.length p)) p vv w
  = (Stop (Exited EXIT_FAILURE), w).
Proof.
  intros Hlib Hcomma.
  pose proof (starts_with_nonempty _ _ Hcomma) as Hlen.
  rewrite advance_length in Hlen.
  destruct (String.length p) as [|fuel] eqn:Hp; [lia|].
  cbn [vcd_masks]. destruct (strtoull p) as [n used] eqn:Hfirst.
  cbn [snd] in Hcomma.
  destruct (Nat.eqb used 0); cbn [orb]; [reflexivity|].
  destruct (n >? UINT32_MAX); [reflexivity|].
  unfold bind.
  destruct (split_bits_parses 32 0x80000000 n (bitmasks vv) w) as [Hw Hres].
  destruct (split_bits 32 0x80000000 n (bitmasks vv) w) as [[bits | s] w'];
    cbn [fst snd] in *; subst w'; [| now subst s].
  rewrite Hcomma.
  pose proof (Hlib _ Hcomma) as Hnone.
  destruct (strtoull (advance used p)) as [n' used']. cbn [snd] in Hnone.
  subst used'. reflexivity.
Qed.

End CommandLine.

Lemma strtoull_stops_at_comma (s : string) :
  starts_with "," s = true -> snd (Strtoull.strtoull s) = O.
Proof.
  destruct s as [|ch s]; [discriminate|]. cbn [starts_with].
  intros Hch. apply Ascii.eqb_eq in Hch. subst ch.
  destruct s; reflexivity.
Qed.

Lemma vcd_masks_refuses_comma_witness :
  starts_with "," (advance (snd (Strtoull.strtoull "0x6,0x80")) "0x6,0x80")
  = true
  /\ vcd_masks Strtoull.strtoull (S (String.length "0x6,0x80")) "0x6,0x80"
               no_value (boot [])
     = (Stop (Exited EXIT_FAILURE), boot []).
Proof.
  assert (Hcomma : starts_with ","
                     (advance (snd (Strtoull.strtoull "0x6,0x80")) "0x6,0x80")
                   = true) by reflexivity.
  split; [exact Hcomma|].
  exact (vcd_masks_refuses_comma Strtoull.strtoull "0x6,0x80" no_value
                                 (boot []) strtoull_stops_at_comma Hcomma).
Defined.

Lemma land_pow2_test (k n : Z) :
  0 <= k -> (Z.land (2 ^ k) n =? 0) = negb (Z.testbit n k).
Proof.
  intros Hk. destruct (Z.testbit n k) eqn:Hbit; cbn [negb].
  - apply Z.eqb_neq. intros H0.
    assert (Hk' : Z.testbit (Z.land (2 ^ k) n) k = true)
      by (rewrite Z.land_spec, Z.pow2_bits_true, Hbit by lia; reflexivity).
    rewrite H0, Z.bits_0 in Hk'. discriminate.
  - apply Z.eqb_eq. apply Z.bits_inj'. intros j Hj.
    rewrite Z.land_spec, Z.bits_0, Z.pow2_bits_eqb by lia.
    destruct (Z.eqb_spec k j) as [-> | Hne]; [now rewrite Hbit | reflexivity].
Qed.

Section Masks.

Lemma split_bits_from (n : Z) (todo : nat) :
  forall tm bits w,
    (todo = O \/ tm = 2 ^ (Z.of_nat todo - 1)) ->
    (List.length bits + todo <= 32)%nat ->
    split_bits todo tm n bits w = (Ok (bits ++ bits_below todo n), w).
Proof.
  induction todo as [|todo IH]; intros tm bits w Htm Hroom;
    cbn [split_bits bits_below].
  - now rewrite app_nil_r.
  - destruct Htm as [Htm | Htm]; [discriminate|].
    replace (Z.of_nat (S todo) - 1) with (Z.of_nat todo) in Htm by lia.
    subst tm. rewrite land_pow2_test by lia. rewrite negb_involutive.
    assert (Hnext : todo = O
                    \/ Z.shiftr (2 ^ Z.of_nat todo) 1
                       = 2 ^ (Z.of_nat todo - 1)).
    { destruct todo as [|todo]; [now left | right].
      rewrite Z.shiftr_div_pow2 by lia. change (2 ^ 1) with 2.
      replace (Z.of_nat (S todo)) with (Z.of_nat (S todo) - 1 + 1) at 1
        by lia.
      rewrite Z.pow_add_r by lia. change (2 ^ 1) with 2.
      apply Z.div_mul. lia. }
    destruct (Z.testbit n (Z.of_nat todo)).
    + destruct (Z.geb_spec (Z.of_nat (List.length bits)) MAX_VCD_VALUE_BITS)
        as [Hfull | Hfree].
      * unfold MAX_VCD_VALUE_BITS in Hfull. lia.
      * unfold bind, ret.
        rewrite (IH _ (bits ++ [2 ^ Z.of_nat todo]) w Hnext)
          by (rewrite length_app; cbn; lia).
        now rewrite <- app_assoc.
    + unfold bind, ret. rewrite (IH _ bits w Hnext) by lia. reflexivity.
Qed.

(** X19.  Into an empty entry, the loop over the 32 mask bits never fails,
    and stores the set bits of the number one mask each, from bit 31 down:
    the first mask stored is the most significant bit of the value. *)
Theorem split_bits_msb_first (n : Z) (w : world) :
  split_bits 32 0x80000000 n [] w = (Ok (bits_below 32 n), w).
Proof.
  rewrite (split_bits_from n 32 0x80000000 [] w).
  - reflexivity.
  - right. reflexivity.
  - cbn. lia.
Qed.

End Masks.

Section Units.

Variable strtoull : string -> Z * nat.

(** X20.  A number with an SI suffix is taken times 1000 for [k] or [K] and
    times 1000000 for [m] or [M]; whatever [args_si_unit] returns is the
    number [strtoull] read, so scaled, and fits 32 bits: a product that does
    not is refused, not wrapped. *)
Theorem args_si_unit_scales (a a' : args) (unit : string) (v : Z)
        (w w' : world) :
  let arg := nth (Z.to_nat (pos a)) (argv a) EmptyString in
  let n := fst (strtoull arg) in
  let suffix := peek (advance (snd (strtoull arg)) arg) in
  0 <= n ->
  args_si_unit strtoull a unit w = (Ok (v, a'), w') ->
  0 <= v <= UINT32_MAX
  /\ ((suffix = None /\ v = n)
      \/ ((suffix = Some "k"%char \/ suffix = Some "K"%char) /\ v = n * 1000)
      \/ ((suffix = Some "m"%char \/ suffix = Some "M"%char)
          /\ v = n * 1000000)).
Proof.
  intros arg n suffix Hn. unfold args_si_unit, args_pop.
  destruct (pos a =? argc a); [discriminate|].
  fold arg. subst n suffix.
  destruct (strtoull arg) as [n used]. cbn [fst snd] in *.
  destruct (_ || _); [discriminate|].
  assert (Hfit : forall x, 0 <= x -> (x >? UINT32_MAX) = false ->
                           u32 x = x /\ 0 <= x <= UINT32_MAX).
  { intros x Hx Hle. destruct (Z.gtb_spec x UINT32_MAX); [discriminate|].
    unfold UINT32_MAX in *. split; [apply Z.mod_small|]; lia. }
  destruct (peek (advance used arg)) as [ch|] eqn:Hpeek.
  - destruct ch as [[] [] [] [] [] [] [] []];
      try discriminate;
      unfold bind, ret;
      match goal with
      | |- (if ?x >? UINT32_MAX then _ else _) _ = _ -> _ =>
          destruct (x >? UINT32_MAX) eqn:Hbig; [discriminate|];
          destruct (_ && _); [discriminate|];
          intros Hrun; inversion Hrun; subst;
          destruct (Hfit x ltac:(lia) Hbig) as [-> Hrange];
          split; [exact Hrange | auto 10]
      end.
  - unfold bind, ret.
    destruct (n >? UINT32_MAX) eqn:Hbig; [discriminate|].
    destruct (_ && _); [discriminate|].
    intros Hrun; inversion Hrun; subst.
    destruct (Hfit n Hn Hbig) as [-> Hrange]. auto.
Qed.

End Units.

Lemma args_si_unit_scales_witness :
  let a := {| argv := ["sump-dump"; "tty"; "sample_memory"; "16kB"]%string;
              argc := 4; pos := 3 |} in
  let a' := {| argv := argv a; argc := 4; pos := 4 |} in
  let arg := nth (Z.to_nat (pos a)) (argv a) EmptyString in
  let n := fst (Strtoull.strtoull arg) in
  let suffix := peek (advance (snd (Strtoull.strtoull arg)) arg) in
  0 <= n
  /\ args_si_unit Strtoull.strtoull a "B" (boot []) = (Ok (16000, a'), boot [])
  /\ 0 <= 16000 <= UINT32_MAX
  /\ ((suffix = None /\ 16000 = n)
      \/ ((suffix = Some "k"%char \/ suffix = Some "K"%char)
          /\ 16000 = n * 1000)
      \/ ((suffix = Some "m"%char \/ suffix = Some "M"%char)
          /\ 16000 = n * 1000000)).
Proof.
  intros a a' arg n suffix.
  assert (Hn : 0 <= n) by (vm_compute; discriminate).
  assert (Hrun : args_si_unit Strtoull.strtoull a "B" (boot [])
                 = (Ok (16000, a'), boot []))
    by (vm_compute; reflexivity).
  split; [exact Hn | split; [exact Hrun|]].
  exact (args_si_unit_scales Strtoull.strtoull a a' "B" 16000 (boot [])
                             (boot []) Hn Hrun).
Defined.

(** ** The state line of a VCD value *)

Lemma append_assoc (a b c : string) :
  ((a ++ b) ++ c)%string = (a ++ b ++ c)%string.
Proof. induction a as [|ch a IH]; cbn; [reflexivity | now rewrite IH]. Qed.

Lemma append_empty (a : string) : (a ++ EmptyString)%string = a.
Proof. induction a as [|ch a IH]; cbn; [reflexivity | now rewrite IH]. Qed.

Lemma concat_cons (s : string) (l : list string) :
  String.concat EmptyString (s :: l)
  = (s ++ String.concat EmptyString l)%string.
Proof.
  destruct l as [|s' l]; cbn [String.concat];
    [now rewrite append_empty | reflexivity].
Qed.

Lemma printed_twice (w : world) (a b : string) :
  printed (printed w a) b = printed w (a ++ b).
Proof. unfold printed. cbn [tty_in tty_log stdout]. now rewrite append_assoc. Qed.

Lemma print_bits (sample : Z) (bms : list Z) :
  forall (acc : io unit) (w : world) (s : string),
    acc w = (Ok tt, printed w s) ->
    fold_left (fun acc bm => acc ;;; print (bit_of sample bm)) bms acc w
    = (Ok tt,
       printed w (s ++ String.concat EmptyString
                                     (map (bit_of sample) bms))).
Proof.
  induction bms as [|bm bms IH]; intros acc w s Hacc; cbn [fold_left map].
  - cbn [String.concat]. now rewrite append_empty.
  - rewrite (IH _ w (s ++ bit_of sample bm)%string).
    + now rewrite concat_cons, append_assoc.
    + unfold bind. rewrite Hacc. unfold print, printed.
      cbn [tty_in tty_log stdout]. now rewrite append_assoc.
Qed.

(** X21.  [write_vcd_value] never fails and adds exactly one line to
    standard output: for a value of one bit the digit of its mask and its
    identifier, otherwise [b], the digits of its masks in the order they
    were given, a blank and the identifier, the identifier being the
    character 33 places and the value's index on. *)
Theorem write_vcd_value_line (c : cfg) (vali sample : Z) (w : world) :
  write_vcd_value c vali sample w
  = (Ok tt, printed w (state_line (value_at c vali) vali sample)).
Proof.
  unfold write_vcd_value, state_line.
  destruct (num_bits (value_at c vali) =? 1); [reflexivity|].
  unfold bind at 1.
  change (print "b" w) with (Ok tt, printed w "b").
  unfold bind at 1.
  rewrite (print_bits sample (bitmasks (value_at c vali)) (ret tt)
                      (printed w "b") EmptyString)
    by (unfold ret, printed; cbn [tty_in tty_log stdout];
        now rewrite append_empty).
  unfold print. rewrite printed_twice. cbn [append].
  unfold printed. cbn [tty_in tty_log stdout].
  now rewrite !append_assoc.
Qed.
